(** * Licensing SaaS backend: key issuance and activation admission

    A shallow embedding of [src/main.py] ([create_license],
    [activate_license]) and of the [License] schema of [src/schemas.py],
    with the properties of the license lifecycle proved over it.

    Python values are modelled as follows.
    - [str] is [string]; [int] is [Z]; [bytes] is [list byte].
    - A MongoDB collection is the list of its documents in natural
      (insertion) order; [find_one] returns the first match and
      [update_one] writes the first match.
    - An exception is a value of [raised]; a handler that may raise runs in
      the monad [M], which threads the database and stops at the first
      exception. *)

From Stdlib Require Import ZArith NArith Ascii String.
From Stdlib.Strings Require Import Byte.
From stdpp Require Import base tactics option list strings.

Local Open Scope string_scope.
Local Open Scope Z_scope.

(** ** Strings: the [str] methods used by the key generator *)

Definition ascii_in_range (lo hi c : ascii) : bool :=
  ((nat_of_ascii lo <=? nat_of_ascii c)%nat && (nat_of_ascii c <=? nat_of_ascii hi)%nat)%bool.

Definition is_ascii_lower (c : ascii) : bool := ascii_in_range "a" "z" c.
Definition is_ascii_upper (c : ascii) : bool := ascii_in_range "A" "Z" c.
Definition is_ascii_digit (c : ascii) : bool := ascii_in_range "0" "9" c.

(** [c.upper()] for an ASCII character. *)
Definition upper_ascii (c : ascii) : ascii :=
  if is_ascii_lower c then ascii_of_nat (nat_of_ascii c - 32) else c.

(** [s.upper()]. *)
Fixpoint upper (s : string) : string :=
  match s with
  | EmptyString => EmptyString
  | String c s' => String (upper_ascii c) (upper s')
  end.

(** [s.replace(c, "")] for a one-character pattern [c]. *)
Fixpoint remove_char (c : ascii) (s : string) : string :=
  match s with
  | EmptyString => EmptyString
  | String d s' => if Ascii.eqb d c then remove_char c s' else String d (remove_char c s')
  end.

(** [s.rstrip(c)] for a one-character set [c]. *)
Fixpoint rstrip_char (c : ascii) (s : string) : string :=
  match s with
  | EmptyString => EmptyString
  | String d s' =>
      match rstrip_char c s' with
      | EmptyString => if Ascii.eqb d c then EmptyString else String d EmptyString
      | t => String d t
      end
  end.

(** [s[i:i+n]]: Python slices clamp at the end of the string. *)
Definition slice (i n : nat) (s : string) : string := substring i n s.

(** [sep.join(parts)]. *)
Definition join (sep : string) (parts : list string) : string := String.concat sep parts.

(** ** [secrets.token_urlsafe]

    [token_urlsafe(n)] is
    [base64.urlsafe_b64encode(token_bytes(n)).rstrip(b"=").decode("ascii")].
    The [n] random bytes are the argument [rnd]. *)

Definition urlsafe_alphabet : string :=
  "ABCDEFGHIJKLMNOPQRSTUVWXYZabcdefghijklmnopqrstuvwxyz0123456789-_".

(** The character of a 6-bit group. *)
Definition b64char (i : N) : ascii :=
  match String.get (N.to_nat i) urlsafe_alphabet with
  | Some c => c
  | None => "="%char
  end.

Definition sextet (n : N) (shift : N) : ascii :=
  b64char (N.land (N.shiftr n shift) 63).

(** Three bytes give four characters; a last group of one or two bytes is
    padded with zero bits and closed with [=] signs. *)
Fixpoint urlsafe_b64encode (bs : list byte) : string :=
  match bs with
  | [] => EmptyString
  | [a] =>
      let n := N.shiftl (Byte.to_N a) 16 in
      String (sextet n 18) (String (sextet n 12) "==")
  | [a; b] =>
      let n := N.lor (N.shiftl (Byte.to_N a) 16) (N.shiftl (Byte.to_N b) 8) in
      String (sextet n 18) (String (sextet n 12) (String (sextet n 6) "="))
  | a :: b :: c :: rest =>
      let n := N.lor (N.lor (N.shiftl (Byte.to_N a) 16) (N.shiftl (Byte.to_N b) 8))
                     (Byte.to_N c) in
      String (sextet n 18) (String (sextet n 12) (String (sextet n 6)
        (String (sextet n 0) (urlsafe_b64encode rest))))
  end.

Definition token_urlsafe (rnd : list byte) : string :=
  rstrip_char "=" (urlsafe_b64encode rnd).

(** ** The license key ([create_license], lines 106-109) *)

(** [token = secrets.token_urlsafe(16).upper().replace("-", "").replace("_", "")] *)
Definition make_token (rnd : list byte) : string :=
  remove_char "_" (remove_char "-" (upper (token_urlsafe rnd))).

(** [key = "-".join([token[i:i+4] for i in range(0, 16, 4)])] *)
Definition make_key (token : string) : string :=
  join "-" ((fun i => slice i 4 token) <$> [0; 4; 8; 12]%nat).

Definition generate_key (rnd : list byte) : string := make_key (make_token rnd).

(** The key format [^[A-Z0-9]{4}-[A-Z0-9]{4}-[A-Z0-9]{4}-[A-Z0-9]{4}$] as a
    sequence of character classes, matched against the whole string. *)
Definition is_key_char (c : ascii) : bool := (is_ascii_upper c || is_ascii_digit c)%bool.
Definition is_hyphen (c : ascii) : bool := Ascii.eqb c "-".

Definition key_pattern : list (ascii -> bool) :=
  replicate 4 is_key_char ++ [is_hyphen] ++ replicate 4 is_key_char ++ [is_hyphen] ++
  replicate 4 is_key_char ++ [is_hyphen] ++ replicate 4 is_key_char.

Fixpoint match_classes (pat : list (ascii -> bool)) (s : string) : bool :=
  match pat, s with
  | [], EmptyString => true
  | p :: pat', String c s' => (p c && match_classes pat' s')%bool
  | _, _ => false
  end.

Definition key_well_formed (k : string) : bool := match_classes key_pattern k.

(** The characters of the URL-safe alphabet, and the two of them that
    [create_license] strips. *)
Definition is_separator (c : ascii) : bool := (Ascii.eqb c "-" || Ascii.eqb c "_")%bool.
Definition is_urlsafe (c : ascii) : bool :=
  (is_ascii_upper c || is_ascii_lower c || is_ascii_digit c || is_separator c)%bool.

Fixpoint string_forall (p : ascii -> bool) (s : string) : bool :=
  match s with
  | EmptyString => true
  | String c s' => (p c && string_forall p s')%bool
  end.

Fixpoint string_count (p : ascii -> bool) (s : string) : nat :=
  match s with
  | EmptyString => 0%nat
  | String c s' => ((if p c then 1 else 0) + string_count p s')%nat
  end.

(** ** Exceptions and the handler monad *)

(** The exceptions other than [HTTPException] that the two handlers can
    meet: [bson.errors.InvalidId] from [ObjectId(...)] and pydantic's
    [ValidationError] from the [License] constructor. *)
Inductive py_error : Type :=
  | InvalidId (oid : string)
  | ValidationError (field : string) (input : Z).

(** The [detail] of an [HTTPException]: a literal message, or [str(e)]. *)
Inductive http_detail : Type :=
  | Detail (msg : string)
  | StrOf (e : py_error).

Inductive raised : Type :=
  | HTTPException (status_code : Z) (detail : http_detail)
  | Exception (e : py_error).

Inductive outcome (A : Type) : Type :=
  | Return (a : A)
  | Raise (e : raised).
Arguments Return {A} a.
Arguments Raise {A} e.

(** ** Request bodies and the [License] schema *)

Module LicenseCreate.
Record t : Type := mk {
  product_id : string;
  assigned_to : option string;
  max_activations : Z;
  expires_at : option string;
}.
End LicenseCreate.

Module ActivationRequest.
Record t : Type := mk {
  key : string;
  machine_id : string;
}.
End ActivationRequest.

(** [schemas.License]; [datetime] values are seconds since the epoch. *)
Module License.
Record t : Type := mk {
  product_id : string;
  key : string;
  assigned_to : option string;
  status : string;
  max_activations : Z;
  activations : list string;
  expires_at : option Z;
}.

(** The constructor [License(...)]: the only constrained field is
    [max_activations: int = Field(1, ge=1, le=100)]. *)
Definition new (product_id key : string) (assigned_to : option string)
    (max_activations : Z) (activations : list string) (status : string)
    (expires_at : option Z) : outcome t :=
  if ((1 <=? max_activations) && (max_activations <=? 100))%bool
  then Return (mk product_id key assigned_to status max_activations activations expires_at)
  else Raise (Exception (ValidationError "max_activations" max_activations)).
End License.

(** ** Stored documents and the database *)

(** A document of the [productsaas] collection ([price], a float that no
    handler below reads, is left out). *)
Record product_doc : Type := {
  prod__id : N;
  prod_name : string;
  prod_description : option string;
  prod_plan : option string;
  prod_status : string;
}.

(** A document of the [license] collection. The three fields that
    [activate_license] reads with [lic.get] may be absent. *)
Record license_doc : Type := {
  lic__id : N;
  lic_product_id : string;
  lic_key : string;
  lic_assigned_to : option string;
  lic_status : option string;
  lic_max_activations : option Z;
  lic_activations : option (list string);
  lic_expires_at : option Z;
}.

(** A write command sent to the server: the [insert_one] of a license and
    the [update_one] with [{"$set": {"activations": ..., "status": ...}}]. *)
Inductive write_op : Type :=
  | InsertLicense (d : license_doc)
  | SetActivationsStatus (id : N) (acts : list string) (st : string).

(** The two collections, and the write commands sent so far, oldest first. *)
Record database : Type := {
  productsaas : list product_doc;
  license : list license_doc;
  writes : list write_op;
}.

(** A handler body: reads and writes the database, may raise. *)
Definition M (A : Type) : Type := database -> outcome A * database.

Definition ret {A} (a : A) : M A := fun db => (Return a, db).
Definition raise {A} (e : raised) : M A := fun db => (Raise e, db).
Definition lift {A} (o : outcome A) : M A := fun db => (o, db).
Definition bind {A B} (c : M A) (k : A -> M B) : M B :=
  fun db =>
    match c db with
    | (Return a, db') => k a db'
    | (Raise e, db') => (Raise e, db')
    end.

Notation "x <- c ;; k" := (bind c (fun x => k))
  (at level 100, c at next level, right associativity).

(** [try: body / except HTTPException: raise /
     except Exception as e: raise HTTPException(status_code=400, detail=str(e))] *)
Definition try_except_400 {A} (body : M A) : M A :=
  fun db =>
    match body db with
    | (Raise (Exception e), db') => (Raise (HTTPException 400 (StrOf e)), db')
    | r => r
    end.

(** The first document of a collection that a filter matches. *)
Definition lookup_product (oid : N) (db : database) : option product_doc :=
  List.find (fun p => N.eqb (prod__id p) oid) (productsaas db).

Definition lookup_license (key : string) (db : database) : option license_doc :=
  List.find (fun l => String.eqb (lic_key l) key) (license db).

(** [db["productsaas"].find_one({"_id": oid})] *)
Definition find_one_product (oid : N) : M (option product_doc) :=
  fun db => (Return (lookup_product oid db), db).

(** [db["license"].find_one({"key": key})] *)
Definition find_one_license (key : string) : M (option license_doc) :=
  fun db => (Return (lookup_license key db), db).

(** The update [{"$set": {"activations": acts, "status": st}}] on one document. *)
Definition set_activations_status (acts : list string) (st : string) (d : license_doc)
    : license_doc :=
  {| lic__id := lic__id d;
     lic_product_id := lic_product_id d;
     lic_key := lic_key d;
     lic_assigned_to := lic_assigned_to d;
     lic_status := Some st;
     lic_max_activations := lic_max_activations d;
     lic_activations := Some acts;
     lic_expires_at := lic_expires_at d |}.

Fixpoint update_first (id : N) (f : license_doc -> license_doc) (coll : list license_doc)
    : list license_doc :=
  match coll with
  | [] => []
  | d :: rest => if N.eqb (lic__id d) id then f d :: rest else d :: update_first id f rest
  end.

(** [db["license"].update_one({"_id": id}, {"$set": {"activations": acts, "status": st}})] *)
Definition update_one_license (id : N) (acts : list string) (st : string) : M unit :=
  fun db =>
    (Return tt,
     {| productsaas := productsaas db;
        license := update_first id (set_activations_status acts st) (license db);
        writes := (writes db ++ [SetActivationsStatus id acts st])%list |}).

(** An identifier that no document of the collection has. *)
Definition fresh_id (coll : list license_doc) : N :=
  N.succ (foldr N.max 0%N (lic__id <$> coll)).

Definition doc_of_License (id : N) (l : License.t) : license_doc :=
  {| lic__id := id;
     lic_product_id := License.product_id l;
     lic_key := License.key l;
     lic_assigned_to := License.assigned_to l;
     lic_status := Some (License.status l);
     lic_max_activations := Some (License.max_activations l);
     lic_activations := Some (License.activations l);
     lic_expires_at := License.expires_at l |}.

(** Modelled from the spec: [create_document] of [database.py], which is not
    among the sources. The spec gives the store [insert(collection, record)
    -> id] with an [id] that is an opaque unique identifier assigned at
    creation: the record is appended to the collection under an identifier
    no stored document has, and that identifier is returned. *)
Definition create_document_license (payload : License.t) : M N :=
  fun db =>
    let id := fresh_id (license db) in
    (Return id,
     {| productsaas := productsaas db;
        license := (license db ++ [doc_of_License id payload])%list;
        writes := (writes db ++ [InsertLicense (doc_of_License id payload)])%list |}).

(** ** Responses *)

(** [{"id": lid, "key": key}] *)
Record issued : Type := { issued_id : N; issued_key : string }.

(** [{"status": ..., "message": ..., "activations": ...}], the last key optional. *)
Record activation_response : Type := {
  resp_status : string;
  resp_message : string;
  resp_activations : option (list string);
}.

(** The spec's admission results, as the responses that carry them. *)
Definition resp_already_activated : activation_response :=
  {| resp_status := "ok";
     resp_message := "Already activated on this machine";
     resp_activations := None |}.

Definition resp_activated (activations : list string) : activation_response :=
  {| resp_status := "ok"; resp_message := "Activated"; resp_activations := Some activations |}.

(** [x in xs] for strings. *)
Definition str_in (x : string) (xs : list string) : bool := existsb (String.eqb x) xs.

(** [lic.get("status") in ["suspended", "expired"]]: [None] is in no list of strings. *)
Definition status_in (st : option string) (xs : list string) : bool :=
  match st with
  | Some s => str_in s xs
  | None => false
  end.

(** ** The two handlers *)

Section Handlers.

(** [bson.ObjectId(s)] for a [str]: the identifier, or [None] where the
    constructor raises [InvalidId]. *)
Variable ObjectId : string -> option N.

Definition ObjectId_or_raise (s : string) : M N :=
  match ObjectId s with
  | Some oid => ret oid
  | None => raise (Exception (InvalidId s))
  end.

(** [create_license]; [rnd] is what [secrets] draws from the system's
    random source. *)
Definition create_license (data : LicenseCreate.t) (rnd : list byte) : M issued :=
  try_except_400 (
    oid <- ObjectId_or_raise (LicenseCreate.product_id data) ;;
    prod <- find_one_product oid ;;
    match prod with
    | None => raise (HTTPException 404 (Detail "Product not found"))
    | Some _ =>
        let token := make_token rnd in
        let key := make_key token in
        payload <- lift (License.new (LicenseCreate.product_id data) key
                           (LicenseCreate.assigned_to data)
                           (LicenseCreate.max_activations data)
                           [] "unused" None) ;;
        lid <- create_document_license payload ;;
        ret {| issued_id := lid; issued_key := key |}
    end).

(** [activate_license] *)
Definition activate_license (payload : ActivationRequest.t) : M activation_response :=
  try_except_400 (
    lic <- find_one_license (ActivationRequest.key payload) ;;
    match lic with
    | None => raise (HTTPException 404 (Detail "License not found"))
    | Some lic =>
        if status_in (lic_status lic) ["suspended"; "expired"]
        then raise (HTTPException 403 (Detail "License not active"))
        else
          let activations := default [] (lic_activations lic) in
          let max_acts := default 1 (lic_max_activations lic) in
          if str_in (ActivationRequest.machine_id payload) activations
          then ret resp_already_activated
          else if Z.of_nat (List.length activations) >=? max_acts
          then raise (HTTPException 403 (Detail "Activation limit reached"))
          else
            let activations := (activations ++ [ActivationRequest.machine_id payload])%list in
            let status := "active" in
            _ <- update_one_license (lic__id lic) activations status ;;
            ret (resp_activated activations)
    end).

End Handlers.

(** The product that a [product_id] of a request resolves to, if any. *)
Definition resolve_product (ObjectId : string -> option N) (pid : string) (db : database)
    : option product_doc :=
  match ObjectId pid with
  | Some oid => lookup_product oid db
  | None => None
  end.

(** ** The data-model invariants *)

(** [lic.get("activations", [])] and [lic.get("max_activations", 1)]. *)
Definition doc_activations (d : license_doc) : list string := default [] (lic_activations d).
Definition doc_max_activations (d : license_doc) : Z := default 1 (lic_max_activations d).

Record license_invariants (d : license_doc) : Prop := {
  inv_capacity : Z.of_nat (List.length (doc_activations d)) <= doc_max_activations d;
  inv_distinct : NoDup (doc_activations d);
  inv_status : lic_status d = Some "active" <-> doc_activations d <> [];
}.

(** What MongoDB guarantees of a collection: no two documents share an [_id]. *)
Definition unique_ids (db : database) : Prop := NoDup (lic__id <$> license db).

(** A store whose every license satisfies the invariants. *)
Definition store_ok (db : database) : Prop :=
  unique_ids db /\ Forall license_invariants (license db).

(** The fields that [activate_license] never writes. *)
Definition same_frame (d d' : license_doc) : Prop :=
  lic__id d' = lic__id d /\
  lic_key d' = lic_key d /\
  lic_product_id d' = lic_product_id d /\
  lic_assigned_to d' = lic_assigned_to d /\
  lic_max_activations d' = lic_max_activations d /\
  lic_expires_at d' = lic_expires_at d.

(** ** Concrete inputs for the examples *)

Definition hex_digit (c : ascii) : option N :=
  let n := N_of_ascii c in
  if is_ascii_digit c then Some (n - 48)%N
  else if ascii_in_range "a" "f" c then Some (n - 87)%N
  else if ascii_in_range "A" "F" c then Some (n - 55)%N
  else None.

Fixpoint hex_value (acc : N) (s : string) : option N :=
  match s with
  | EmptyString => Some acc
  | String c s' =>
      match hex_digit c with
      | Some d => hex_value (16 * acc + d)%N s'
      | None => None
      end
  end.

(** An [ObjectId] constructor for the examples: a string of 24 hexadecimal
    digits is read as a 96-bit number, a string of another length is refused.
    [bson.ObjectId] also takes a 24-character string in which white space
    separates pairs of digits, which this instance refuses; the examples
    present no such string, and the theorems hold for any constructor. *)
Definition ObjectId_hex24 (s : string) : option N :=
  if (String.length s =? 24)%nat then hex_value 0 s else None.

Definition example_product : product_doc :=
  {| prod__id := 1%N; prod_name := "Editor"; prod_description := None;
     prod_plan := Some "standard"; prod_status := "active" |}.

Definition example_product_id : string := "000000000000000000000001".

Definition example_license (id : N) (key : string) (st : string) (max : Z)
    (acts : list string) : license_doc :=
  {| lic__id := id; lic_product_id := example_product_id; lic_key := key;
     lic_assigned_to := None; lic_status := Some st; lic_max_activations := Some max;
     lic_activations := Some acts; lic_expires_at := None |}.

Definition example_store (lics : list license_doc) (ws : list write_op) : database :=
  {| productsaas := [example_product]; license := lics; writes := ws |}.

(** A store that has received no write command yet. *)
Definition example_db (lics : list license_doc) : database := example_store lics [].

(** Sixteen bytes of the random source. *)
Definition rnd_zero : list byte := replicate 16 x00.
Definition rnd_ones : list byte := replicate 16 xff.
Definition rnd_seven : list byte := [xfb; xef; xbe; xfb; xef; x80] ++ replicate 10 x00.

(** ** Listing ([list_licenses]) *)

(** The two filters that [list_licenses] builds: [{}] and [{"product_id": pid}]. *)
Inductive license_filter : Type :=
  | MatchAll
  | MatchProductId (pid : string).

Definition filter_matches (filt : license_filter) (d : license_doc) : bool :=
  match filt with
  | MatchAll => true
  | MatchProductId pid => String.eqb (lic_product_id d) pid
  end.

(** Modelled from the spec: [get_documents] of [database.py], which is not
    among the sources. The spec gives the store [find_many(collection,
    filter) -> list<record>]: the documents of the collection that the filter
    matches, in stored order; nothing is written. *)
Definition get_documents_license (filt : license_filter) : M (list license_doc) :=
  fun db => (Return (List.filter (filter_matches filt) (license db)), db).

(** A listed license: the document with ["id"] in place of ["_id"]. *)
Record license_view : Type := {
  view_id : string;
  view_product_id : string;
  view_key : string;
  view_assigned_to : option string;
  view_status : option string;
  view_max_activations : option Z;
  view_activations : option (list string);
  view_expires_at : option Z;
}.

Section Listing.

(** [str(oid)] for an [ObjectId]. *)
Variable str_ObjectId : N -> string.

(** [d["id"] = str(d.get("_id")); d.pop("_id", None)] *)
Definition view_of_doc (d : license_doc) : license_view :=
  {| view_id := str_ObjectId (lic__id d);
     view_product_id := lic_product_id d;
     view_key := lic_key d;
     view_assigned_to := lic_assigned_to d;
     view_status := lic_status d;
     view_max_activations := lic_max_activations d;
     view_activations := lic_activations d;
     view_expires_at := lic_expires_at d |}.

(** [list_licenses]; [product_id] is the optional query parameter, and
    [if product_id] is false for [None] and for the empty string. *)
Definition list_licenses (product_id : option string) : M (list license_view) :=
  try_except_400 (
    let filt :=
      match product_id with
      | Some (String c pid) => MatchProductId (String c pid)
      | Some EmptyString | None => MatchAll
      end in
    docs <- get_documents_license filt ;;
    ret (view_of_doc <$> docs)).

End Listing.

(** ** Requests served one after the other *)

Inductive request : Type :=
  | IssueRequest (data : LicenseCreate.t) (rnd : list byte)
  | ActivateRequest (payload : ActivationRequest.t).

Definition serve (ObjectId : string -> option N) (req : request) (db : database) : database :=
  match req with
  | IssueRequest data rnd => snd (create_license ObjectId data rnd db)
  | ActivateRequest payload => snd (activate_license payload db)
  end.

Definition serve_all (ObjectId : string -> option N) (reqs : list request) (db : database)
    : database :=
  foldl (fun db req => serve ObjectId req db) db reqs.

(** The machines [ms] presenting the same key, in order. *)
Definition activate_each (key : string) (ms : list string) (db : database) : database :=
  foldl (fun db m => snd (activate_license (ActivationRequest.mk key m) db)) db ms.

(** A license as the handlers build it: the three fields that
    [activate_license] reads are present, the ceiling is within the bounds of
    the schema and the status is one of the two that the handlers set. *)
Definition handler_built (d : license_doc) : Prop :=
  exists (max : Z) (acts : list string) (st : string),
    lic_max_activations d = Some max /\ lic_activations d = Some acts /\
    lic_status d = Some st /\
    1 <= max <= 100 /\ (st = "unused" \/ st = "active").

(** A character that a generated key can hold. *)
Definition is_key_or_hyphen (c : ascii) : bool := (is_key_char c || is_hyphen c)%bool.

(** How a stored license may differ after requests were served: the fields
    outside [activations] and [status] are the same, the admitted machines
    are extended at the end, the status is the same or [active], and a
    suspended or expired license is the same document. *)
Definition evolves (d d' : license_doc) : Prop :=
  same_frame d d' /\
  doc_activations d `prefix_of` doc_activations d' /\
  (lic_status d' = lic_status d \/ lic_status d' = Some "active") /\
  (lic_status d = Some "suspended" \/ lic_status d = Some "expired" -> d' = d).

(** The test that [activate_license] makes on the found license before it
    writes: not suspended nor expired, machine not yet admitted, a seat free. *)
Definition admits (payload : ActivationRequest.t) (lic : license_doc) : bool :=
  (negb (status_in (lic_status lic) ["suspended"; "expired"]) &&
   negb (str_in (ActivationRequest.machine_id payload) (doc_activations lic)) &&
   negb (Z.of_nat (List.length (doc_activations lic)) >=? doc_max_activations lic))%bool.

(** A [str] of an [ObjectId] for the examples: 24 lower-case hexadecimal digits. *)
Definition hex_char (d : N) : ascii :=
  if (d <? 10)%N then ascii_of_N (48 + d) else ascii_of_N (87 + d).

Fixpoint hex_digits (n : nat) (v : N) (acc : string) : string :=
  match n with
  | O => acc
  | S n' => hex_digits n' (v / 16)%N (String (hex_char (v mod 16)%N) acc)
  end.

Definition str_ObjectId_hex24 (oid : N) : string := hex_digits 24 oid "".

(** A license document that holds none of the fields read with [lic.get]. *)
Definition example_bare_license (id : N) (key : string) : license_doc :=
  {| lic__id := id; lic_product_id := example_product_id; lic_key := key;
     lic_assigned_to := None; lic_status := None; lic_max_activations := None;
     lic_activations := None; lic_expires_at := None |}.

(** * Properties *)

(** ** The handlers as case analyses *)

Definition not_found (what : string) : raised := HTTPException 404 (Detail what).
Definition forbidden (why : string) : raised := HTTPException 403 (Detail why).

(** The database after the write of a successful activation. *)
Definition activation_written (lic : license_doc) (m : string) (db : database) : database :=
  {| productsaas := productsaas db;
     license := update_first (lic__id lic)
                  (set_activations_status (doc_activations lic ++ [m])%list "active")
                  (license db);
     writes := (writes db ++
                [SetActivationsStatus (lic__id lic) (doc_activations lic ++ [m])%list
                   "active"])%list |}.

(** The database after the insert of a successful issuance. *)
Definition license_inserted (l : License.t) (db : database) : database :=
  {| productsaas := productsaas db;
     license := (license db ++ [doc_of_License (fresh_id (license db)) l])%list;
     writes := (writes db ++ [InsertLicense (doc_of_License (fresh_id (license db)) l)])%list |}.

Lemma activate_license_cases (payload : ActivationRequest.t) (db : database) :
  activate_license payload db =
    let m := ActivationRequest.machine_id payload in
    match lookup_license (ActivationRequest.key payload) db with
    | None => (Raise (not_found "License not found"), db)
    | Some lic =>
        if status_in (lic_status lic) ["suspended"; "expired"]
        then (Raise (forbidden "License not active"), db)
        else if str_in m (doc_activations lic)
        then (Return resp_already_activated, db)
        else if Z.of_nat (List.length (doc_activations lic)) >=? doc_max_activations lic
        then (Raise (forbidden "Activation limit reached"), db)
        else (Return (resp_activated (doc_activations lic ++ [m])%list),
              activation_written lic m db)
    end.
Proof.
  unfold activate_license, try_except_400, bind, find_one_license; cbn -[status_in str_in].
  destruct (lookup_license _ db) as [lic|]; [|reflexivity].
  unfold doc_activations, doc_max_activations.
  destruct (status_in _ _); [reflexivity|].
  destruct (str_in _ _); [reflexivity|].
  destruct (_ >=? _); reflexivity.
Qed.

Section IssueCases.
Variable ObjectId : string -> option N.

Lemma create_license_cases (data : LicenseCreate.t) (rnd : list byte) (db : database) :
  create_license ObjectId data rnd db =
    let pid := LicenseCreate.product_id data in
    let max := LicenseCreate.max_activations data in
    match ObjectId pid with
    | None => (Raise (HTTPException 400 (StrOf (InvalidId pid))), db)
    | Some oid =>
        match lookup_product oid db with
        | None => (Raise (not_found "Product not found"), db)
        | Some _ =>
            if ((1 <=? max) && (max <=? 100))%bool
            then
              let l := License.mk pid (generate_key rnd) (LicenseCreate.assigned_to data)
                         "unused" max [] None in
              (Return {| issued_id := fresh_id (license db);
                         issued_key := generate_key rnd |},
               license_inserted l db)
            else (Raise (HTTPException 400 (StrOf (ValidationError "max_activations" max))), db)
        end
    end.
Proof.
  unfold create_license, try_except_400, bind, ObjectId_or_raise, find_one_product,
    lift, License.new, create_document_license, ret, raise, generate_key, license_inserted.
  cbv zeta.
  destruct (ObjectId _) as [oid|]; [|reflexivity].
  destruct (lookup_product oid db); [|reflexivity].
  destruct (_ && _)%bool; reflexivity.
Qed.
End IssueCases.

(** ** Membership tests *)

Lemma str_in_elem_of (x : string) (xs : list string) : str_in x xs = true <-> x ∈ xs.
Proof.
  unfold str_in. rewrite existsb_exists. split.
  - intros (y & Hy & Heq). apply String.eqb_eq in Heq as ->. by apply list_elem_of_In.
  - intros Hx. exists x. split; [by apply list_elem_of_In | apply String.eqb_refl].
Qed.

Lemma str_in_not_elem_of (x : string) (xs : list string) : str_in x xs = false <-> x ∉ xs.
Proof.
  rewrite <- str_in_elem_of. destruct (str_in x xs); split; intros; congruence.
Qed.

Lemma status_in_blocked (st : option string) :
  status_in st ["suspended"; "expired"] = true <->
  st = Some "suspended" \/ st = Some "expired".
Proof.
  destruct st as [s|]; cbn -[str_in].
  - rewrite str_in_elem_of, !elem_of_cons, elem_of_nil.
    split; [intros [->|[->|[]]]; auto | intros [[= ->]|[= ->]]; auto].
  - split; [discriminate | intros [|]; discriminate].
Qed.

Lemma status_active_not_blocked (st : option string) :
  st = Some "active" -> status_in st ["suspended"; "expired"] = false.
Proof. intros ->. reflexivity. Qed.

(** ** Collections: first match and first-match update *)

Lemma find_split {A} (p : A -> bool) (l : list A) (x : A) :
  List.find p l = Some x ->
  exists l1 l2, l = (l1 ++ x :: l2)%list /\ p x = true /\ Forall (fun y => p y = false) l1.
Proof.
  induction l as [|a l IH]; cbn; [discriminate|].
  destruct (p a) eqn:Hpa.
  - intros [= ->]. exists [], l. by repeat split.
  - intros Hfind. destruct (IH Hfind) as (l1 & l2 & -> & Hpx & Hl1).
    exists (a :: l1), l2. repeat split; [done|]. by constructor.
Qed.

Lemma find_app_skip {A} (p : A -> bool) (l1 l : list A) :
  Forall (fun y => p y = false) l1 -> List.find p (l1 ++ l)%list = List.find p l.
Proof.
  induction 1 as [|a l1 Ha _ IH]; cbn; [done|]. by rewrite Ha.
Qed.

Lemma update_first_split (f : license_doc -> license_doc) (l1 l2 : list license_doc)
    (x : license_doc) :
  NoDup (lic__id <$> (l1 ++ x :: l2)%list) ->
  update_first (lic__id x) f (l1 ++ x :: l2)%list = (l1 ++ f x :: l2)%list.
Proof.
  induction l1 as [|a l1 IH]; cbn.
  - intros _. by rewrite N.eqb_refl.
  - intros [Ha Hnd]%NoDup_cons.
    destruct (N.eqb_spec (lic__id a) (lic__id x)) as [Heq|_].
    + exfalso. apply Ha. rewrite Heq, fmap_app, fmap_cons.
      apply elem_of_app. right. apply list_elem_of_here.
    + by rewrite IH.
Qed.

Lemma update_first_length (id : N) (f : license_doc -> license_doc) (coll : list license_doc) :
  List.length (update_first id f coll) = List.length coll.
Proof.
  induction coll as [|d coll IH]; cbn; [done|].
  destruct (N.eqb _ _); cbn; by rewrite ?IH.
Qed.

(** After the write of an activation the key resolves to the written license. *)
Lemma lookup_activation_written (key m : string) (lic : license_doc) (db : database) :
  unique_ids db ->
  lookup_license key db = Some lic ->
  lookup_license key (activation_written lic m db) =
    Some (set_activations_status (doc_activations lic ++ [m])%list "active" lic).
Proof.
  unfold unique_ids, lookup_license, activation_written. cbn.
  intros Hnd (l1 & l2 & Hsplit & Hkey & Hl1)%find_split.
  rewrite Hsplit in Hnd |- *. rewrite update_first_split by done.
  rewrite find_app_skip by done. cbn. by rewrite Hkey.
Qed.

(** ** Activation *)

(** C5. A license whose stored status is [suspended] or [expired] refuses
    every activation with 403 "License not active", whatever the machine,
    the admitted machines, the ceiling and [expires_at] are; nothing is
    written. *)
Theorem activate_blocked_status (payload : ActivationRequest.t) (db : database)
    (lic : license_doc) :
  lookup_license (ActivationRequest.key payload) db = Some lic ->
  lic_status lic = Some "suspended" \/ lic_status lic = Some "expired" ->
  activate_license payload db =
    (Raise (HTTPException 403 (Detail "License not active")), db).
Proof.
  intros Hlic Hst. rewrite activate_license_cases. cbv zeta. rewrite Hlic.
  apply status_in_blocked in Hst. by rewrite Hst.
Qed.

(** C2. Activation is idempotent per machine. When the key resolves to a
    license that is neither suspended nor expired: a machine that is already
    admitted gets "Already activated on this machine" and the database is
    left as it was, whatever the ceiling is; and on a free seat the first
    call admits the machine and the second call, on the database the first
    one wrote, is such a repeat. *)
Theorem activate_idempotent (payload : ActivationRequest.t) (db : database)
    (lic : license_doc) :
  lookup_license (ActivationRequest.key payload) db = Some lic ->
  lic_status lic <> Some "suspended" ->
  lic_status lic <> Some "expired" ->
  (ActivationRequest.machine_id payload ∈ doc_activations lic ->
     activate_license payload db = (Return resp_already_activated, db)) /\
  (unique_ids db ->
   ActivationRequest.machine_id payload ∉ doc_activations lic ->
   Z.of_nat (List.length (doc_activations lic)) < doc_max_activations lic ->
     exists db1 lic1,
       activate_license payload db =
         (Return (resp_activated
                    (doc_activations lic ++ [ActivationRequest.machine_id payload])%list),
          db1) /\
       lookup_license (ActivationRequest.key payload) db1 = Some lic1 /\
       doc_activations lic1 =
         (doc_activations lic ++ [ActivationRequest.machine_id payload])%list /\
       activate_license payload db1 = (Return resp_already_activated, db1)).
Proof.
  intros Hlic Hs He.
  assert (Hst : status_in (lic_status lic) ["suspended"; "expired"] = false).
  { destruct (status_in _ _) eqn:E; [|done]. apply status_in_blocked in E as [|]; done. }
  split.
  - intros Hin%str_in_elem_of.
    rewrite activate_license_cases. cbv zeta. by rewrite Hlic, Hst, Hin.
  - intros Hnd Hnotin%str_in_not_elem_of Hroom.
    exists (activation_written lic (ActivationRequest.machine_id payload) db).
    eexists. split; [|split; [by apply lookup_activation_written|split; [done|]]].
    + rewrite activate_license_cases. cbv zeta. rewrite Hlic, Hst, Hnotin.
      destruct (Z.geb_spec (Z.of_nat (List.length (doc_activations lic)))
                  (doc_max_activations lic)); [lia|done].
    + rewrite activate_license_cases. cbv zeta.
      rewrite (lookup_activation_written _ _ _ _ Hnd Hlic). cbn -[str_in].
      assert (Hin : str_in (ActivationRequest.machine_id payload)
                      (doc_activations lic ++ [ActivationRequest.machine_id payload])%list
                    = true).
      { apply str_in_elem_of, elem_of_app. right. apply list_elem_of_here. }
      rewrite Hin. reflexivity.
Qed.

Lemma two_distinct_fill (acts : list string) (m1 m2 : string) :
  NoDup acts -> (List.length acts <= 2)%nat ->
  m1 ∈ acts -> m2 ∈ acts -> m1 <> m2 ->
  List.length acts = 2%nat /\ forall m, m ∈ acts -> m = m1 \/ m = m2.
Proof.
  intros Hnd Hlen H1 H2 Hne.
  destruct acts as [|a [|b [|c rest]]]; cbn in Hlen; try lia.
  - by apply elem_of_nil in H1.
  - apply list_elem_of_singleton in H1, H2. congruence.
  - split; [done|]. intros m Hm.
    rewrite !elem_of_cons, elem_of_nil in H1, H2, Hm.
    destruct H1 as [->|[->|[]]], H2 as [->|[->|[]]], Hm as [->|[->|[]]]; auto; done.
Qed.

(** C3. A license with [max_activations = 2] that satisfies the invariants
    and has admitted two distinct machines refuses a third distinct machine
    with 403 "Activation limit reached", and the database, so the list of
    admitted machines too, is left as it was. *)
Theorem activate_limit_reached (payload : ActivationRequest.t) (db : database)
    (lic : license_doc) (m1 m2 : string) :
  lookup_license (ActivationRequest.key payload) db = Some lic ->
  license_invariants lic ->
  lic_max_activations lic = Some 2 ->
  m1 ∈ doc_activations lic -> m2 ∈ doc_activations lic -> m1 <> m2 ->
  ActivationRequest.machine_id payload <> m1 ->
  ActivationRequest.machine_id payload <> m2 ->
  activate_license payload db =
    (Raise (HTTPException 403 (Detail "Activation limit reached")), db).
Proof.
  intros Hlic [Hcap Hnd Hst] Hmax H1 H2 Hne Hn1 Hn2.
  assert (Hmax' : doc_max_activations lic = 2) by (unfold doc_max_activations; by rewrite Hmax).
  rewrite Hmax' in Hcap.
  destruct (two_distinct_fill _ m1 m2 Hnd ltac:(lia) H1 H2 Hne) as [Hlen Hall].
  rewrite activate_license_cases. cbv zeta. rewrite Hlic.
  rewrite status_active_not_blocked.
  2:{ apply Hst. intros Hnil. rewrite Hnil in Hlen. discriminate. }
  assert (Hnotin : str_in (ActivationRequest.machine_id payload) (doc_activations lic) = false).
  { apply str_in_not_elem_of. intros [|]%Hall; done. }
  by rewrite Hnotin, Hlen, Hmax'.
Qed.

(** ** The frame of an activation *)

Lemma same_frame_refl (d : license_doc) : same_frame d d.
Proof. by repeat split. Qed.

Lemma same_frame_set (acts : list string) (st : string) (d : license_doc) :
  same_frame d (set_activations_status acts st d).
Proof. by repeat split. Qed.

Lemma update_first_lookup (id : N) (f : license_doc -> license_doc) (coll : list license_doc)
    (i : nat) (d d' : license_doc) :
  coll !! i = Some d -> update_first id f coll !! i = Some d' -> d' = d \/ d' = f d.
Proof.
  revert i. induction coll as [|a coll IH]; intros i; cbn; [done|].
  destruct (N.eqb _ _).
  - destruct i as [|i]; cbn; [right|left]; congruence.
  - destruct i as [|i]; cbn; [left; congruence|]. apply IH.
Qed.

Lemma update_first_one (id : N) (f : license_doc -> license_doc) (coll : list license_doc) :
  exists i, forall j, j <> i -> update_first id f coll !! j = coll !! j.
Proof.
  induction coll as [|a coll [i IH]]; cbn; [by exists 0%nat|].
  destruct (N.eqb _ _).
  - exists 0%nat. intros [|j] Hj; [done|reflexivity].
  - exists (S i). intros [|j] Hj; [reflexivity|]. cbn. apply IH. congruence.
Qed.

(** C10. An activation leaves the products and the number of licenses as
    they were, writes at most one license, and leaves [_id], [key],
    [product_id], [assigned_to], [max_activations] and [expires_at] of every
    license as they were. It writes exactly when it answers "Activated", and
    the write is the [$set] of [activations] and [status] on the first
    document with the found license's [_id]. *)
Theorem activate_frame (payload : ActivationRequest.t) (db : database) :
  productsaas (snd (activate_license payload db)) = productsaas db /\
  List.length (license (snd (activate_license payload db))) = List.length (license db) /\
  (forall i d d',
     license db !! i = Some d ->
     license (snd (activate_license payload db)) !! i = Some d' ->
     same_frame d d') /\
  (exists i, forall j, j <> i ->
     license (snd (activate_license payload db)) !! j = license db !! j) /\
  (forall acts,
     fst (activate_license payload db) = Return (resp_activated acts) ->
     exists lic,
       lookup_license (ActivationRequest.key payload) db = Some lic /\
       license (snd (activate_license payload db)) =
         update_first (lic__id lic) (set_activations_status acts "active") (license db) /\
       writes (snd (activate_license payload db)) =
         (writes db ++ [SetActivationsStatus (lic__id lic) acts "active"])%list) /\
  ((forall acts, fst (activate_license payload db) <> Return (resp_activated acts)) ->
     snd (activate_license payload db) = db).
Proof.
  rewrite activate_license_cases. cbv zeta.
  assert (Hsame : forall r : outcome activation_response,
    productsaas (snd (r, db)) = productsaas db /\
    List.length (license (snd (r, db))) = List.length (license db) /\
    (forall i d d', license db !! i = Some d -> license (snd (r, db)) !! i = Some d' ->
       same_frame d d') /\
    (exists i, forall j, j <> i -> license (snd (r, db)) !! j = license db !! j)).
  { intros r. cbn. split; [done|split; [done|split; [|by exists 0%nat]]].
    intros i d d' Hd Hd'. rewrite Hd in Hd'. injection Hd' as <-. apply same_frame_refl. }
  assert (Hquiet : forall r : outcome activation_response,
    (forall acts, r <> Return (resp_activated acts)) ->
    (forall acts, fst (r, db) = Return (resp_activated acts) ->
       exists lic,
         lookup_license (ActivationRequest.key payload) db = Some lic /\
         license (snd (r, db)) =
           update_first (lic__id lic) (set_activations_status acts "active") (license db) /\
         writes (snd (r, db)) =
           (writes db ++ [SetActivationsStatus (lic__id lic) acts "active"])%list) /\
    ((forall acts, fst (r, db) <> Return (resp_activated acts)) -> snd (r, db) = db)).
  { intros r Hr. split; [|done]. intros acts Hacts. by destruct (Hr acts). }
  assert (Hno : forall r : outcome activation_response,
    (forall acts, r <> Return (resp_activated acts)) ->
    productsaas (snd (r, db)) = productsaas db /\
    List.length (license (snd (r, db))) = List.length (license db) /\
    (forall i d d', license db !! i = Some d -> license (snd (r, db)) !! i = Some d' ->
       same_frame d d') /\
    (exists i, forall j, j <> i -> license (snd (r, db)) !! j = license db !! j) /\
    (forall acts, fst (r, db) = Return (resp_activated acts) ->
       exists lic,
         lookup_license (ActivationRequest.key payload) db = Some lic /\
         license (snd (r, db)) =
           update_first (lic__id lic) (set_activations_status acts "active") (license db) /\
         writes (snd (r, db)) =
           (writes db ++ [SetActivationsStatus (lic__id lic) acts "active"])%list) /\
    ((forall acts, fst (r, db) <> Return (resp_activated acts)) -> snd (r, db) = db)).
  { intros r Hr. destruct (Hsame r) as (H1 & H2 & H3 & H4). destruct (Hquiet r Hr) as [H5 H6].
    exact (conj H1 (conj H2 (conj H3 (conj H4 (conj H5 H6))))). }
  destruct (lookup_license _ db) as [lic|] eqn:Hlic; [|by apply Hno].
  destruct (status_in _ _); [by apply Hno|].
  destruct (str_in _ _); [by apply Hno|].
  destruct (_ >=? _); [by apply Hno|].
  cbn. split; [done|]. split; [apply update_first_length|]. split; [|split; [|split]].
  - intros i d d' Hd Hd'.
    destruct (update_first_lookup _ _ _ _ _ _ Hd Hd') as [->| ->];
      [apply same_frame_refl | apply same_frame_set].
  - apply update_first_one.
  - intros acts [= <-]. by exists lic.
  - intros Hwrote.
    by destruct (Hwrote (doc_activations lic ++ [ActivationRequest.machine_id payload])%list).
Qed.

(** ** The invariants of the store *)

Lemma fresh_id_bound (coll : list license_doc) (d : license_doc) :
  d ∈ coll -> (lic__id d < fresh_id coll)%N.
Proof.
  unfold fresh_id. induction 1 as [d coll|d a coll _ IH]; cbn in *; lia.
Qed.

Lemma fresh_id_fresh (coll : list license_doc) : fresh_id coll ∉ lic__id <$> coll.
Proof.
  intros (d & Hid & Hd)%list_elem_of_fmap. apply fresh_id_bound in Hd. lia.
Qed.

Lemma invariants_issued (id : N) (l : License.t) :
  License.status l = "unused" -> License.activations l = [] ->
  1 <= License.max_activations l ->
  license_invariants (doc_of_License id l).
Proof.
  intros Hst Hacts Hmax. split; unfold doc_activations, doc_max_activations; cbn.
  - rewrite Hacts. cbn. lia.
  - rewrite Hacts. constructor.
  - rewrite Hst, Hacts. split; [discriminate|done].
Qed.

Lemma invariants_activated (m : string) (d : license_doc) :
  license_invariants d ->
  m ∉ doc_activations d ->
  Z.of_nat (List.length (doc_activations d)) < doc_max_activations d ->
  license_invariants (set_activations_status (doc_activations d ++ [m])%list "active" d).
Proof.
  intros [Hcap Hnd _] Hm Hroom. split; unfold doc_activations at 1; cbn.
  - rewrite length_app. cbn. unfold doc_max_activations in *. cbn. lia.
  - apply NoDup_app. split; [done|]. split; [|apply NoDup_singleton].
    intros x Hx ->%list_elem_of_singleton. done.
  - split; [|done]. intros _ Hnil. by apply app_eq_nil in Hnil as [_ ?].
Qed.

Lemma store_ok_activation_written (key m : string) (lic : license_doc) (db : database) :
  store_ok db ->
  lookup_license key db = Some lic ->
  m ∉ doc_activations lic ->
  Z.of_nat (List.length (doc_activations lic)) < doc_max_activations lic ->
  store_ok (activation_written lic m db).
Proof.
  unfold store_ok, unique_ids, lookup_license, activation_written. cbn.
  intros [Hids Hinv] (l1 & l2 & Hsplit & _ & _)%find_split Hm Hroom.
  rewrite Hsplit in Hids, Hinv |- *. rewrite update_first_split by done.
  split.
  - by rewrite fmap_app, fmap_cons in Hids |- *.
  - apply Forall_app in Hinv as [H1 [Hlic H2]%Forall_cons].
    apply Forall_app. split; [done|]. constructor; [|done].
    by apply invariants_activated.
Qed.

Lemma store_ok_license_inserted (l : License.t) (db : database) :
  store_ok db ->
  License.status l = "unused" -> License.activations l = [] ->
  1 <= License.max_activations l ->
  store_ok (license_inserted l db).
Proof.
  unfold store_ok, unique_ids, license_inserted. cbn.
  intros [Hids Hinv] Hst Hacts Hmax. split.
  - rewrite fmap_app. apply NoDup_app. split; [done|]. split; [|apply NoDup_singleton].
    intros x Hx ->%list_elem_of_singleton. by apply (fresh_id_fresh (license db)).
  - apply Forall_app. split; [done|]. constructor; [|constructor].
    by apply invariants_issued.
Qed.

Lemma activate_license_store_ok (payload : ActivationRequest.t) (db : database) :
  store_ok db -> store_ok (snd (activate_license payload db)).
Proof.
  intros Hok. rewrite activate_license_cases. cbv zeta.
  destruct (lookup_license _ db) as [lic|] eqn:Hlic; [|done].
  destruct (status_in _ _); [done|].
  destruct (str_in _ _) eqn:Hin; [done|].
  destruct (Z.geb_spec (Z.of_nat (List.length (doc_activations lic)))
              (doc_max_activations lic)); [done|].
  cbn. eapply store_ok_activation_written; [done..| |lia].
  by apply str_in_not_elem_of.
Qed.

(** A license in the written store is the one before, or the found license
    with the machine appended and the status set. *)
Lemma activate_license_step (payload : ActivationRequest.t) (db : database) (i : nat)
    (d d' : license_doc) :
  unique_ids db ->
  license db !! i = Some d ->
  license (snd (activate_license payload db)) !! i = Some d' ->
  d' = d \/
  ((ActivationRequest.machine_id payload ∉ doc_activations d) /\
   d' = set_activations_status
          (doc_activations d ++ [ActivationRequest.machine_id payload])%list "active" d).
Proof.
  intros Hids Hd. rewrite activate_license_cases. cbv zeta.
  assert (Hsame : forall r : outcome activation_response,
            license (snd (r, db)) !! i = Some d' -> d' = d \/
            ((ActivationRequest.machine_id payload ∉ doc_activations d) /\
             d' = set_activations_status
               (doc_activations d ++ [ActivationRequest.machine_id payload])%list "active" d)).
  { cbn. intros _ Hd'. left. congruence. }
  destruct (lookup_license _ db) as [lic|] eqn:Hlic; [|apply Hsame].
  destruct (status_in _ _); [apply Hsame|].
  destruct (str_in _ _) eqn:Hin; [apply Hsame|].
  destruct (_ >=? _); [apply Hsame|].
  cbn. unfold lookup_license in Hlic. apply find_split in Hlic as (l1 & l2 & Hsplit & _ & _).
  unfold unique_ids in Hids. rewrite Hsplit in Hids, Hd |- *.
  rewrite update_first_split by done. intros Hd'.
  destruct (decide (i = List.length l1)) as [->|Hne].
  - rewrite list_lookup_middle in Hd, Hd' by done. injection Hd as <-. injection Hd' as <-.
    right. split; [by apply str_in_not_elem_of|done].
  - left. destruct (decide (i < List.length l1)%nat).
    + rewrite lookup_app_l in Hd, Hd' by done. congruence.
    + rewrite lookup_app_r in Hd, Hd' by lia.
      destruct (i - List.length l1)%nat as [|k] eqn:Hk; [lia|]. cbn in Hd, Hd'. congruence.
Qed.

(** ** Issuance *)

Section Issuance.
Variable ObjectId : string -> option N.

Lemma create_license_store_ok (data : LicenseCreate.t) (rnd : list byte) (db : database) :
  store_ok db -> store_ok (snd (create_license ObjectId data rnd db)).
Proof.
  intros Hok. rewrite create_license_cases. cbv zeta.
  destruct (ObjectId _) as [oid|]; [|done].
  destruct (lookup_product oid db); [|done].
  destruct (_ && _)%bool eqn:Hb; [|done].
  apply andb_true_iff in Hb as [Hlo%Z.leb_le _].
  cbn. by apply store_ok_license_inserted.
Qed.

Lemma create_license_returns (data : LicenseCreate.t) (rnd : list byte) (db db' : database)
    (r : issued) :
  create_license ObjectId data rnd db = (Return r, db') ->
  exists d,
    license db' = (license db ++ [d])%list /\
    writes db' = (writes db ++ [InsertLicense d])%list /\
    productsaas db' = productsaas db /\
    lic__id d = issued_id r /\ lic_key d = issued_key r /\
    lic_product_id d = LicenseCreate.product_id data /\
    lic_assigned_to d = LicenseCreate.assigned_to data /\
    lic_max_activations d = Some (LicenseCreate.max_activations data) /\
    lic_status d = Some "unused" /\
    lic_activations d = Some [] /\
    lic_expires_at d = None.
Proof.
  rewrite create_license_cases. cbv zeta.
  destruct (ObjectId _) as [oid|]; [|discriminate].
  destruct (lookup_product oid db); [|discriminate].
  destruct (_ && _)%bool; [|discriminate].
  intros [= <- <-]. eexists. by repeat split.
Qed.

(** C6. An issuance that returns has appended one license, under the
    returned id and key, with status [unused], no activations and no
    [expires_at], whatever [expires_at] the request carried. *)
Theorem issued_license_fields (data : LicenseCreate.t) (rnd : list byte)
    (db db' : database) (r : issued) :
  create_license ObjectId data rnd db = (Return r, db') ->
  exists d,
    license db' = (license db ++ [d])%list /\
    writes db' = (writes db ++ [InsertLicense d])%list /\
    lic__id d = issued_id r /\ lic_key d = issued_key r /\
    lic_status d = Some "unused" /\
    lic_activations d = Some [] /\
    lic_expires_at d = None.
Proof.
  intros Hret.
  destruct (create_license_returns _ _ _ _ _ Hret)
    as (d & Hd & Hw & _ & Hid & Hkey & _ & _ & _ & Hst & Ha & He).
  by exists d.
Qed.

(** C7, amended. A [product_id] that is a valid [ObjectId] and matches no
    product makes the issuance fail with 404 "Product not found" and
    nothing is stored; a key that matches no license makes the activation
    fail with 404 "License not found". *)
Theorem unknown_product_or_key (db : database) :
  (forall data rnd oid,
     ObjectId (LicenseCreate.product_id data) = Some oid ->
     lookup_product oid db = None ->
     create_license ObjectId data rnd db =
       (Raise (HTTPException 404 (Detail "Product not found")), db)) /\
  (forall payload,
     lookup_license (ActivationRequest.key payload) db = None ->
     activate_license payload db =
       (Raise (HTTPException 404 (Detail "License not found")), db)).
Proof.
  split.
  - intros data rnd oid Hoid Hprod. rewrite create_license_cases. cbv zeta.
    by rewrite Hoid, Hprod.
  - intros payload Hlic. rewrite activate_license_cases. cbv zeta. by rewrite Hlic.
Qed.

(** C8. With an existing product, a [max_activations] below 1 or above 100
    makes the issuance fail with 400, the validation error of the
    [License] constructor, and nothing is stored; within 1 to 100 the
    constructor accepts and the issuance returns. *)
Theorem max_activations_bounds (data : LicenseCreate.t) (rnd : list byte)
    (db : database) (oid : N) (p : product_doc) :
  ObjectId (LicenseCreate.product_id data) = Some oid ->
  lookup_product oid db = Some p ->
  (LicenseCreate.max_activations data < 1 \/ 100 < LicenseCreate.max_activations data ->
     create_license ObjectId data rnd db =
       (Raise (HTTPException 400
                 (StrOf (ValidationError "max_activations"
                           (LicenseCreate.max_activations data)))), db)) /\
  (1 <= LicenseCreate.max_activations data <= 100 ->
     (exists l, License.new (LicenseCreate.product_id data) (generate_key rnd)
                  (LicenseCreate.assigned_to data) (LicenseCreate.max_activations data)
                  [] "unused" None = Return l) /\
     exists r db', create_license ObjectId data rnd db = (Return r, db')).
Proof.
  intros Hoid Hprod. split.
  - intros Hout. rewrite create_license_cases. cbv zeta. rewrite Hoid, Hprod.
    destruct (Z.leb_spec 1 (LicenseCreate.max_activations data));
      destruct (Z.leb_spec (LicenseCreate.max_activations data) 100); cbn; try done; lia.
  - intros [Hlo Hhi].
    assert (Hb : ((1 <=? LicenseCreate.max_activations data) &&
                  (LicenseCreate.max_activations data <=? 100))%bool = true).
    { apply andb_true_iff. split; by apply Z.leb_le. }
    split.
    + unfold License.new. rewrite Hb. by eexists.
    + rewrite create_license_cases. cbv zeta. rewrite Hoid, Hprod, Hb. by do 2 eexists.
Qed.

(** C9. A [product_id] that is not a valid [ObjectId] makes the issuance
    fail with 400 carrying the constructor's error, whatever products are
    stored, and nothing is written; the answer is not a 404, and differs
    from the answer to a valid [product_id] that matches no product. *)
Theorem malformed_product_id (data : LicenseCreate.t) (rnd : list byte) (db : database) :
  ObjectId (LicenseCreate.product_id data) = None ->
  create_license ObjectId data rnd db =
    (Raise (HTTPException 400 (StrOf (InvalidId (LicenseCreate.product_id data)))), db) /\
  (forall d, fst (create_license ObjectId data rnd db) <> Raise (HTTPException 404 d)) /\
  (forall data' rnd' oid,
     ObjectId (LicenseCreate.product_id data') = Some oid ->
     lookup_product oid db = None ->
     fst (create_license ObjectId data' rnd' db) <> fst (create_license ObjectId data rnd db)).
Proof.
  intros Hbad.
  assert (Hres : create_license ObjectId data rnd db =
    (Raise (HTTPException 400 (StrOf (InvalidId (LicenseCreate.product_id data)))), db)).
  { rewrite create_license_cases. cbv zeta. by rewrite Hbad. }
  split; [done|]. rewrite Hres. split; [done|].
  intros data' rnd' oid Hoid Hprod. rewrite create_license_cases. cbv zeta.
  by rewrite Hoid, Hprod.
Qed.
End Issuance.

(** ** The key generator *)

Lemma b64char_urlsafe (i : N) : (i < 64)%N -> is_urlsafe (b64char i) = true.
Proof.
  intros Hi. destruct i as [|p]; [reflexivity|].
  do 6 (try destruct p as [p|p|]); try reflexivity; lia.
Qed.

Lemma sextet_urlsafe (n shift : N) : is_urlsafe (sextet n shift) = true.
Proof.
  unfold sextet. apply b64char_urlsafe.
  change 63%N with (N.ones 6). rewrite N.land_ones. by apply N.mod_lt.
Qed.

Lemma urlsafe_not_pad (c : ascii) : is_urlsafe c = true -> Ascii.eqb c "=" = false.
Proof. destruct c as [[] [] [] [] [] [] [] []]; vm_compute; congruence. Qed.

(** Upper-casing a character of the alphabet gives a separator or a
    character of the key format, not both. *)
Lemma upper_urlsafe (c : ascii) :
  is_urlsafe c = true ->
  is_separator (upper_ascii c) = is_separator c /\
  (is_separator c = false -> is_key_char (upper_ascii c) = true).
Proof. destruct c as [[] [] [] [] [] [] [] []]; vm_compute; intuition congruence. Qed.

Lemma rstrip_char_cons (c : ascii) (s : string) :
  is_urlsafe c = true -> rstrip_char "=" (String c s) = String c (rstrip_char "=" s).
Proof.
  intros Hc%urlsafe_not_pad. cbn -[Ascii.eqb]. rewrite Hc. by destruct (rstrip_char "=" s).
Qed.

Lemma list_ind3 {A} (P : list A -> Prop) :
  P [] -> (forall a, P [a]) -> (forall a b, P [a; b]) ->
  (forall a b c l, P l -> P (a :: b :: c :: l)) ->
  forall l, P l.
Proof.
  intros H0 H1 H2 H3 l.
  enough (P l /\ (forall a, P (a :: l)) /\ (forall a b, P (a :: b :: l))) by tauto.
  induction l as [|x l (IH0 & IH1 & IH2)]; [done|].
  split; [apply IH1|]. split; [intros a; apply IH2|]. intros a b. by apply H3.
Qed.

(** The token has one character for each 6 bits of the input, rounded up,
    all of them in the URL-safe alphabet. *)
Lemma token_urlsafe_spec (rnd : list byte) :
  string_forall is_urlsafe (token_urlsafe rnd) = true /\
  String.length (token_urlsafe rnd) = ((4 * List.length rnd + 2) / 3)%nat.
Proof.
  unfold token_urlsafe. induction rnd as [|a|a b|a b c rnd [IHall IHlen]] using list_ind3.
  - done.
  - cbn [urlsafe_b64encode]. rewrite !rstrip_char_cons by apply sextet_urlsafe.
    cbn -[sextet]. by rewrite !sextet_urlsafe.
  - cbn [urlsafe_b64encode]. rewrite !rstrip_char_cons by apply sextet_urlsafe.
    cbn -[sextet]. by rewrite !sextet_urlsafe.
  - cbn [urlsafe_b64encode]. rewrite !rstrip_char_cons by apply sextet_urlsafe.
    cbn [string_forall String.length]. rewrite !sextet_urlsafe, IHall, IHlen.
    split; [done|]. cbn [List.length].
    replace (4 * S (S (S (List.length rnd))) + 2)%nat
      with ((4 * List.length rnd + 2) + 4 * 3)%nat by lia.
    rewrite Nat.div_add by done. lia.
Qed.

(** Stripping after upper-casing keeps exactly the characters that are not
    separators, and they are characters of the key format. *)
Lemma strip_upper_spec (t : string) :
  string_forall is_urlsafe t = true ->
  let token := remove_char "_" (remove_char "-" (upper t)) in
  string_forall is_key_char token = true /\
  (String.length token + string_count is_separator t = String.length t)%nat.
Proof.
  cbv zeta. induction t as [|c t IH]; [done|].
  cbn [string_forall]. intros [Hc Ht]%andb_true_iff. destruct (IH Ht) as [IHall IHlen].
  destruct (upper_urlsafe c Hc) as [Hsep Hkey].
  cbn [upper remove_char string_count String.length].
  destruct (Ascii.eqb (upper_ascii c) "-") eqn:Hdash.
  - assert (Hs : is_separator c = true)
      by (rewrite <- Hsep; unfold is_separator; by rewrite Hdash).
    rewrite Hs. split; [done|lia].
  - cbn [remove_char]. destruct (Ascii.eqb (upper_ascii c) "_") eqn:Hund.
    + assert (Hs : is_separator c = true)
        by (rewrite <- Hsep; unfold is_separator; by rewrite Hdash, Hund).
      rewrite Hs. split; [done|lia].
    + assert (Hs : is_separator c = false)
        by (rewrite <- Hsep; unfold is_separator; by rewrite Hdash, Hund).
      rewrite Hs. cbn [string_forall String.length]. rewrite (Hkey Hs), IHall.
      split; [done|lia].
Qed.

Lemma make_key_well_formed (token : string) :
  string_forall is_key_char token = true ->
  (16 <= String.length token)%nat ->
  key_well_formed (make_key token) = true.
Proof.
  intros Hall Hlen.
  do 16 (destruct token as [|? token]; [cbn in Hlen; lia|]).
  cbn [string_forall] in Hall.
  repeat (apply andb_true_iff in Hall as [? Hall]).
  unfold key_well_formed, make_key.
  destruct token; cbv -[is_key_char];
    repeat match goal with H : is_key_char _ = true |- _ => rewrite H; clear H end;
    reflexivity.
Qed.

Lemma make_key_short (token : string) :
  (String.length token < 16)%nat -> key_well_formed (make_key token) = false.
Proof.
  intros Hlen.
  do 16 (destruct token as [|? token];
         [unfold key_well_formed, make_key; cbv -[is_key_char is_hyphen andb];
          rewrite ?andb_false_r; reflexivity|]).
  cbn in Hlen. lia.
Qed.

(** X1. The generated key has the format [XXXX-XXXX-XXXX-XXXX] exactly when the
    22-character random token has at most six [-] and [_]. *)
Lemma generate_key_well_formed_iff (rnd : list byte) :
  List.length rnd = 16%nat ->
  key_well_formed (generate_key rnd) = true <->
  (string_count is_separator (token_urlsafe rnd) <= 6)%nat.
Proof.
  intros Hrnd. destruct (token_urlsafe_spec rnd) as [Hall Hlen].
  rewrite Hrnd in Hlen. change ((4 * 16 + 2) / 3)%nat with 22%nat in Hlen.
  destruct (strip_upper_spec _ Hall) as [Hkey Hcount]. fold (make_token rnd) in Hkey, Hcount.
  unfold generate_key. split.
  - intros Hwf. destruct (decide (String.length (make_token rnd) < 16)%nat) as [Hshort|]; [|lia].
    rewrite make_key_short in Hwf by done. discriminate.
  - intros Hsep. apply make_key_well_formed; [done|lia].
Qed.

(** C4. The key generator in a run where the format is missed. When all
    sixteen random bytes are [0xff] the token is twenty-one [_] and a [w],
    stripping leaves one character and the issued key is ["W---"]; with
    seven separators in the token the key is one character short. Neither
    key has the format [XXXX-XXXX-XXXX-XXXX], and both are stored. *)
Theorem issued_key_malformed :
  token_urlsafe rnd_ones = "_____________________w" /\
  create_license ObjectId_hex24 (LicenseCreate.mk example_product_id None 1 None)
    rnd_ones (example_db []) =
    (Return {| issued_id := 1; issued_key := "W---" |},
     example_store [example_license 1 "W---" "unused" 1 []]
       [InsertLicense (example_license 1 "W---" "unused" 1 [])]) /\
  key_well_formed "W---" = false /\
  token_urlsafe rnd_seven = "-------AAAAAAAAAAAAAAA" /\
  create_license ObjectId_hex24 (LicenseCreate.mk example_product_id None 1 None)
    rnd_seven (example_db []) =
    (Return {| issued_id := 1; issued_key := "AAAA-AAAA-AAAA-AAA" |},
     example_store [example_license 1 "AAAA-AAAA-AAAA-AAA" "unused" 1 []]
       [InsertLicense (example_license 1 "AAAA-AAAA-AAAA-AAA" "unused" 1 [])]) /\
  key_well_formed "AAAA-AAAA-AAAA-AAA" = false.
Proof. repeat split; vm_compute; reflexivity. Qed.

(** ** Runs on concrete stores *)

Lemma example_license_invariants_unused (id : N) (key : string) (max : Z) :
  1 <= max -> license_invariants (example_license id key "unused" max []).
Proof.
  intros Hmax. split; cbn; [lia|constructor|]. split; [discriminate|done].
Qed.

(** C7 as stated fails: a [product_id] that is no [ObjectId] resolves to no
    product, and the issuance answers 400, not 404. *)
Lemma unresolved_product_id_gets_400 :
  resolve_product ObjectId_hex24 "xyz" (example_db []) = None /\
  create_license ObjectId_hex24 (LicenseCreate.mk "xyz" None 1 None) rnd_zero (example_db []) =
    (Raise (HTTPException 400 (StrOf (InvalidId "xyz"))), example_db []) /\
  ~ (exists d,
       fst (create_license ObjectId_hex24 (LicenseCreate.mk "xyz" None 1 None) rnd_zero
              (example_db [])) = Raise (HTTPException 404 d)).
Proof.
  split; [reflexivity|]. split; [reflexivity|]. intros [d Hd]. vm_compute in Hd. discriminate.
Qed.

Lemma activate_idempotent_run :
  activate_license (ActivationRequest.mk "K" "m1")
    (example_db [example_license 1 "K" "active" 1 ["m1"]]) =
    (Return resp_already_activated, example_db [example_license 1 "K" "active" 1 ["m1"]]) /\
  exists db1 lic1,
    activate_license (ActivationRequest.mk "K" "m1")
      (example_db [example_license 1 "K" "unused" 1 []]) =
      (Return (resp_activated ["m1"]), db1) /\
    lookup_license "K" db1 = Some lic1 /\
    doc_activations lic1 = ["m1"] /\
    activate_license (ActivationRequest.mk "K" "m1") db1 = (Return resp_already_activated, db1).
Proof.
  split.
  - apply (proj1 (activate_idempotent (ActivationRequest.mk "K" "m1")
                    (example_db [example_license 1 "K" "active" 1 ["m1"]])
                    (example_license 1 "K" "active" 1 ["m1"])
                    eq_refl ltac:(discriminate) ltac:(discriminate))).
    cbn. apply list_elem_of_here.
  - apply (proj2 (activate_idempotent (ActivationRequest.mk "K" "m1")
                    (example_db [example_license 1 "K" "unused" 1 []])
                    (example_license 1 "K" "unused" 1 [])
                    eq_refl ltac:(discriminate) ltac:(discriminate))).
    + apply NoDup_singleton.
    + cbn. apply not_elem_of_nil.
    + cbn. lia.
Defined.

Lemma activate_limit_reached_run :
  activate_license (ActivationRequest.mk "K" "m3")
    (example_db [example_license 1 "K" "active" 2 ["m1"; "m2"]]) =
    (Raise (HTTPException 403 (Detail "Activation limit reached")),
     example_db [example_license 1 "K" "active" 2 ["m1"; "m2"]]).
Proof.
  apply (activate_limit_reached (ActivationRequest.mk "K" "m3") _
           (example_license 1 "K" "active" 2 ["m1"; "m2"]) "m1" "m2").
  - reflexivity.
  - split; cbn; [lia| |done].
    apply NoDup_cons. split; [|apply NoDup_singleton].
    intros Hin%list_elem_of_singleton. discriminate.
  - reflexivity.
  - cbn. apply list_elem_of_here.
  - cbn. apply list_elem_of_further, list_elem_of_here.
  - discriminate.
  - discriminate.
  - discriminate.
Defined.

Lemma activate_blocked_status_run :
  activate_license (ActivationRequest.mk "K" "m1")
    (example_db [example_license 1 "K" "suspended" 5 ["m1"]]) =
    (Raise (HTTPException 403 (Detail "License not active")),
     example_db [example_license 1 "K" "suspended" 5 ["m1"]]).
Proof.
  apply (activate_blocked_status (ActivationRequest.mk "K" "m1") _
           (example_license 1 "K" "suspended" 5 ["m1"])).
  - reflexivity.
  - left. reflexivity.
Defined.

Lemma issued_license_fields_run :
  create_license ObjectId_hex24
    (LicenseCreate.mk example_product_id None 3 (Some "2030-01-01T00:00:00Z"))
    rnd_zero (example_db []) =
    (Return {| issued_id := 1; issued_key := "AAAA-AAAA-AAAA-AAAA" |},
     example_store [example_license 1 "AAAA-AAAA-AAAA-AAAA" "unused" 3 []]
       [InsertLicense (example_license 1 "AAAA-AAAA-AAAA-AAAA" "unused" 3 [])]) /\
  exists d,
    license (example_store [example_license 1 "AAAA-AAAA-AAAA-AAAA" "unused" 3 []]
               [InsertLicense (example_license 1 "AAAA-AAAA-AAAA-AAAA" "unused" 3 [])]) =
      (license (example_db []) ++ [d])%list /\
    writes (example_store [example_license 1 "AAAA-AAAA-AAAA-AAAA" "unused" 3 []]
              [InsertLicense (example_license 1 "AAAA-AAAA-AAAA-AAAA" "unused" 3 [])]) =
      (writes (example_db []) ++ [InsertLicense d])%list /\
    lic__id d = 1%N /\ lic_key d = "AAAA-AAAA-AAAA-AAAA" /\
    lic_status d = Some "unused" /\ lic_activations d = Some [] /\ lic_expires_at d = None.
Proof.
  split; [reflexivity|].
  apply (issued_license_fields ObjectId_hex24
           (LicenseCreate.mk example_product_id None 3 (Some "2030-01-01T00:00:00Z"))
           rnd_zero (example_db [])
           (example_store [example_license 1 "AAAA-AAAA-AAAA-AAAA" "unused" 3 []]
              [InsertLicense (example_license 1 "AAAA-AAAA-AAAA-AAAA" "unused" 3 [])])
           {| issued_id := 1; issued_key := "AAAA-AAAA-AAAA-AAAA" |}).
  reflexivity.
Defined.

Lemma unknown_product_or_key_run :
  create_license ObjectId_hex24 (LicenseCreate.mk "000000000000000000000002" None 1 None)
    rnd_zero (example_db []) =
    (Raise (HTTPException 404 (Detail "Product not found")), example_db []) /\
  activate_license (ActivationRequest.mk "ZZZZ-ZZZZ-ZZZZ-ZZZZ" "m1")
    (example_db [example_license 1 "K" "unused" 1 []]) =
    (Raise (HTTPException 404 (Detail "License not found")),
     example_db [example_license 1 "K" "unused" 1 []]).
Proof.
  split.
  - apply (proj1 (unknown_product_or_key ObjectId_hex24 (example_db []))
             (LicenseCreate.mk "000000000000000000000002" None 1 None) rnd_zero 2%N);
      reflexivity.
  - apply (proj2 (unknown_product_or_key ObjectId_hex24
                    (example_db [example_license 1 "K" "unused" 1 []]))).
    reflexivity.
Defined.

Lemma max_activations_bounds_run :
  create_license ObjectId_hex24 (LicenseCreate.mk example_product_id None 101 None)
    rnd_zero (example_db []) =
    (Raise (HTTPException 400 (StrOf (ValidationError "max_activations" 101))),
     example_db []) /\
  exists r db',
    create_license ObjectId_hex24 (LicenseCreate.mk example_product_id None 100 None)
      rnd_zero (example_db []) = (Return r, db').
Proof.
  split.
  - apply (proj1 (max_activations_bounds ObjectId_hex24
                    (LicenseCreate.mk example_product_id None 101 None) rnd_zero
                    (example_db []) 1%N example_product eq_refl eq_refl)).
    right. cbn. lia.
  - apply (proj2 (max_activations_bounds ObjectId_hex24
                    (LicenseCreate.mk example_product_id None 100 None) rnd_zero
                    (example_db []) 1%N example_product eq_refl eq_refl)).
    cbn. lia.
Defined.

Lemma malformed_product_id_run :
  create_license ObjectId_hex24 (LicenseCreate.mk "xyz" None 1 None) rnd_zero (example_db []) =
    (Raise (HTTPException 400 (StrOf (InvalidId "xyz"))), example_db []).
Proof.
  apply (proj1 (malformed_product_id ObjectId_hex24 (LicenseCreate.mk "xyz" None 1 None)
                  rnd_zero (example_db []) eq_refl)).
Defined.

Lemma activate_frame_run :
  same_frame (example_license 1 "K" "unused" 1 [])
    (set_activations_status ["m1"] "active" (example_license 1 "K" "unused" 1 [])).
Proof.
  apply (proj1 (proj2 (proj2 (activate_frame (ActivationRequest.mk "K" "m1")
                                (example_db [example_license 1 "K" "unused" 1 []]))))
           0%nat); reflexivity.
Defined.

(** * Further properties *)

(** ** The shape of every generated key *)

Lemma key_char_not_hyphen (c : ascii) : is_key_char c = true -> is_hyphen c = false.
Proof. destruct c as [[] [] [] [] [] [] [] []]; vm_compute; congruence. Qed.

Ltac key_chars Hall :=
  cbn [string_forall] in Hall;
  repeat (apply andb_true_iff in Hall as [? Hall]);
  repeat match goal with
         | H : is_key_char ?c = true |- _ =>
             lazymatch goal with
             | _ : is_hyphen c = false |- _ => fail
             | _ => pose proof (key_char_not_hyphen c H)
             end
         end.

Ltac key_leaf :=
  unfold make_key, is_key_or_hyphen;
  split; [cbv; reflexivity|];
  split; cbv -[is_key_char is_hyphen Nat.add andb orb];
    repeat match goal with
           | H : is_key_char _ = true |- _ => rewrite !H; clear H
           | H : is_hyphen _ = false |- _ => rewrite ?H; clear H
           end;
    reflexivity.

Lemma make_key_shape (token : string) :
  string_forall is_key_char token = true ->
  String.length (make_key token) = (3 + Nat.min 16 (String.length token))%nat /\
  string_count is_hyphen (make_key token) = 3%nat /\
  string_forall is_key_or_hyphen (make_key token) = true.
Proof.
  intros Hall.
  do 16 (destruct token as [|? token]; [key_chars Hall; key_leaf|]).
  key_chars Hall. destruct token; key_leaf.
Qed.

(** X2. Whatever the sixteen random bytes are, the generated key holds only
    characters of [A-Z0-9] and exactly three hyphens, and has three
    characters more than the stripped token gives, sixteen at most. *)
Theorem generate_key_shape (rnd : list byte) :
  List.length rnd = 16%nat ->
  String.length (generate_key rnd) =
    (3 + Nat.min 16 (22 - string_count is_separator (token_urlsafe rnd)))%nat /\
  string_count is_hyphen (generate_key rnd) = 3%nat /\
  string_forall is_key_or_hyphen (generate_key rnd) = true.
Proof.
  intros Hrnd. destruct (token_urlsafe_spec rnd) as [Hall Hlen].
  rewrite Hrnd in Hlen. change ((4 * 16 + 2) / 3)%nat with 22%nat in Hlen.
  destruct (strip_upper_spec _ Hall) as [Hkey Hcount]. fold (make_token rnd) in Hkey, Hcount.
  destruct (make_key_shape _ Hkey) as (Hl & Hh & Hc). unfold generate_key.
  split; [|done]. rewrite Hl. f_equal. f_equal. lia.
Qed.

Lemma generate_key_shape_run :
  String.length (generate_key rnd_seven) = 18%nat /\
  string_count is_hyphen (generate_key rnd_seven) = 3%nat /\
  string_forall is_key_or_hyphen (generate_key rnd_seven) = true.
Proof. exact (generate_key_shape rnd_seven eq_refl). Defined.

Lemma generate_key_well_formed_run :
  key_well_formed (generate_key rnd_zero) = true.
Proof. apply (proj2 (generate_key_well_formed_iff rnd_zero eq_refl)). vm_compute. lia. Defined.

(** ** The outcomes of an issuance *)

Section IssuanceOutcomes.
Variable ObjectId : string -> option N.

(** X3. [create_license] returns exactly when the [product_id] is a valid
    [ObjectId] of a stored product and [max_activations] is within 1 to 100;
    otherwise it raises 400 or 404 and writes nothing. *)
Theorem create_license_outcomes (data : LicenseCreate.t) (rnd : list byte) (db : database) :
  ((exists r db', create_license ObjectId data rnd db = (Return r, db')) <->
   (exists oid p,
      ObjectId (LicenseCreate.product_id data) = Some oid /\
      lookup_product oid db = Some p /\
      1 <= LicenseCreate.max_activations data <= 100)) /\
  (forall e db',
     create_license ObjectId data rnd db = (Raise e, db') ->
     db' = db /\ exists detail, e = HTTPException 400 detail \/ e = HTTPException 404 detail).
Proof.
  rewrite create_license_cases. cbv zeta.
  destruct (ObjectId _) as [oid|].
  2:{ split; [split|].
      - intros (r & db' & [=]).
      - intros (oid & p & [=] & _).
      - intros e db' [= <- <-]. split; [done|]. eexists. by left. }
  destruct (lookup_product oid db) as [p|] eqn:Hprod.
  2:{ split; [split|].
      - intros (r & db' & [=]).
      - intros (oid' & p & [= <-] & Hp & _). congruence.
      - intros e db' [= <- <-]. split; [done|]. eexists. by right. }
  destruct (Z.leb_spec 1 (LicenseCreate.max_activations data));
    destruct (Z.leb_spec (LicenseCreate.max_activations data) 100); cbn [andb].
  - split; [split|].
    + intros _. exists oid, p. repeat split; [done|lia..].
    + intros _. by do 2 eexists.
    + intros e db' [=].
  - split; [split|].
    + intros (r & db' & [=]).
    + intros (_ & _ & _ & _ & ?). lia.
    + intros e db' [= <- <-]. split; [done|]. eexists. by left.
  - split; [split|].
    + intros (r & db' & [=]).
    + intros (_ & _ & _ & _ & ?). lia.
    + intros e db' [= <- <-]. split; [done|]. eexists. by left.
  - split; [split|].
    + intros (r & db' & [=]).
    + intros (_ & _ & _ & _ & ?). lia.
    + intros e db' [= <- <-]. split; [done|]. eexists. by left.
Qed.

Lemma find_app_some {A} (p : A -> bool) (l1 l2 : list A) (x : A) :
  List.find p l1 = Some x -> List.find p (l1 ++ l2)%list = Some x.
Proof.
  induction l1 as [|a l1 IH]; cbn; [discriminate|]. destruct (p a); [done|apply IH].
Qed.

Lemma find_app_none {A} (p : A -> bool) (l1 l2 : list A) :
  List.find p l1 = None -> List.find p (l1 ++ l2)%list = List.find p l2.
Proof.
  induction l1 as [|a l1 IH]; cbn; [done|]. destruct (p a); [discriminate|apply IH].
Qed.

Lemma lookup_license_elem (key : string) (db : database) (lic : license_doc) :
  lookup_license key db = Some lic -> lic ∈ license db /\ lic_key lic = key.
Proof.
  unfold lookup_license. intros (l1 & l2 & -> & Hkey%String.eqb_eq & _)%find_split.
  split; [|done]. apply elem_of_app. right. apply list_elem_of_here.
Qed.

(** X4. An issuance does not look for the key among the stored licenses:
    when a license with the generated key is already stored, a valid
    request still returns that key and appends a second license under it,
    with another [_id]; the key goes on resolving to the older license. *)
Theorem issue_key_collision (data : LicenseCreate.t) (rnd : list byte) (db : database)
    (oid : N) (p : product_doc) (lic : license_doc) :
  ObjectId (LicenseCreate.product_id data) = Some oid ->
  lookup_product oid db = Some p ->
  1 <= LicenseCreate.max_activations data <= 100 ->
  lookup_license (generate_key rnd) db = Some lic ->
  exists r db' d,
    create_license ObjectId data rnd db = (Return r, db') /\
    license db' = (license db ++ [d])%list /\
    issued_key r = lic_key lic /\ lic_key d = lic_key lic /\
    lic__id d <> lic__id lic /\
    lookup_license (issued_key r) db' = Some lic.
Proof.
  intros Hoid Hprod [Hlo Hhi] Hlic.
  destruct (lookup_license_elem _ _ _ Hlic) as [Hin Hkey].
  rewrite create_license_cases. cbv zeta. rewrite Hoid, Hprod.
  destruct (Z.leb_spec 1 (LicenseCreate.max_activations data)); [|lia].
  destruct (Z.leb_spec (LicenseCreate.max_activations data) 100); [|lia].
  cbn [andb]. do 3 eexists. split; [reflexivity|]. cbn.
  split; [reflexivity|]. split; [done|]. split; [done|]. split.
  - apply fresh_id_bound in Hin. intros Heq. cbn in Heq. lia.
  - unfold lookup_license. cbn. by apply find_app_some.
Qed.
End IssuanceOutcomes.

(** ** What an activation writes, and what requests never undo *)

Lemma activate_license_length (payload : ActivationRequest.t) (db : database) :
  List.length (license (snd (activate_license payload db))) = List.length (license db).
Proof.
  rewrite activate_license_cases. cbv zeta.
  destruct (lookup_license _ db); [|done].
  destruct (status_in _ _); [done|]. destruct (str_in _ _); [done|].
  destruct (_ >=? _); [done|]. apply update_first_length.
Qed.

Lemma update_first_ids (id : N) (f : license_doc -> license_doc) (coll : list license_doc) :
  (forall d, lic__id (f d) = lic__id d) ->
  lic__id <$> update_first id f coll = lic__id <$> coll.
Proof.
  intros Hf. induction coll as [|a coll IH]; cbn; [done|].
  destruct (N.eqb _ _); cbn; by rewrite ?Hf, ?IH.
Qed.

Lemma activate_license_unique_ids (payload : ActivationRequest.t) (db : database) :
  unique_ids db -> unique_ids (snd (activate_license payload db)).
Proof.
  unfold unique_ids. rewrite activate_license_cases. cbv zeta.
  destruct (lookup_license _ db); [|done].
  destruct (status_in _ _); [done|]. destruct (str_in _ _); [done|].
  destruct (_ >=? _); [done|]. cbn. by rewrite update_first_ids.
Qed.

Lemma create_license_unique_ids (ObjectId : string -> option N) (data : LicenseCreate.t)
    (rnd : list byte) (db : database) :
  unique_ids db -> unique_ids (snd (create_license ObjectId data rnd db)).
Proof.
  unfold unique_ids. rewrite create_license_cases. cbv zeta.
  destruct (ObjectId _) as [oid|]; [|done].
  destruct (lookup_product oid db); [|done].
  destruct (_ && _)%bool; [|done]. cbn. intros Hids.
  rewrite fmap_app. apply NoDup_app. split; [done|]. split; [|apply NoDup_singleton].
  intros x Hx ->%list_elem_of_singleton. by apply (fresh_id_fresh (license db)).
Qed.

(** With unique identifiers, the license an activation writes is the one its
    key resolves to, and that license is neither suspended nor expired. *)
Lemma activate_license_written (payload : ActivationRequest.t) (db : database) (i : nat)
    (d d' : license_doc) :
  unique_ids db ->
  license db !! i = Some d ->
  license (snd (activate_license payload db)) !! i = Some d' ->
  d' = d \/
  (lookup_license (ActivationRequest.key payload) db = Some d /\
   status_in (lic_status d) ["suspended"; "expired"] = false /\
   d' = set_activations_status
          (doc_activations d ++ [ActivationRequest.machine_id payload])%list "active" d).
Proof.
  intros Hids Hd. rewrite activate_license_cases. cbv zeta.
  destruct (lookup_license _ db) as [lic|] eqn:Hlic; [|cbn; left; congruence].
  destruct (status_in _ _) eqn:Hst; [cbn; left; congruence|].
  destruct (str_in _ _); [cbn; left; congruence|].
  destruct (_ >=? _); [cbn; left; congruence|].
  cbn. pose proof Hlic as Hfound.
  unfold lookup_license in Hlic. apply find_split in Hlic as (l1 & l2 & Hsplit & _ & _).
  unfold unique_ids in Hids. rewrite Hsplit in Hids, Hd |- *.
  rewrite update_first_split by done. intros Hd'.
  destruct (decide (i = List.length l1)) as [->|Hne].
  - rewrite list_lookup_middle in Hd, Hd' by done. injection Hd as <-. injection Hd' as <-.
    by right.
  - left. destruct (decide (i < List.length l1)%nat).
    + rewrite lookup_app_l in Hd, Hd' by done. congruence.
    + rewrite lookup_app_r in Hd, Hd' by lia.
      destruct (i - List.length l1)%nat as [|k] eqn:Hk; [lia|]. cbn in Hd, Hd'. congruence.
Qed.

(** X5. With unique identifiers, a license that is not the first one stored
    under its key is never written by an activation, whatever key and
    machine are presented. *)
Theorem shadowed_license_never_written (payload : ActivationRequest.t) (db : database)
    (j : nat) (d : license_doc) :
  unique_ids db ->
  license db !! j = Some d ->
  lookup_license (lic_key d) db <> Some d ->
  license (snd (activate_license payload db)) !! j = Some d.
Proof.
  intros Hids Hd Hshadow.
  destruct (lookup_lt_is_Some_2 (license (snd (activate_license payload db))) j) as [d' Hd'].
  { rewrite activate_license_length. by eapply lookup_lt_Some. }
  destruct (activate_license_written _ _ _ _ _ Hids Hd Hd') as [->|(Hfound & _ & _)]; [done|].
  destruct (lookup_license_elem _ _ _ Hfound) as [_ Hkey]. rewrite Hkey in Hshadow. done.
Qed.

Lemma evolves_refl (d : license_doc) : evolves d d.
Proof. split; [apply same_frame_refl|]. split; [done|]. split; [by left|done]. Qed.

Lemma evolves_trans (d1 d2 d3 : license_doc) : evolves d1 d2 -> evolves d2 d3 -> evolves d1 d3.
Proof.
  intros (Hf1 & Hp1 & Hs1 & Hb1) (Hf2 & Hp2 & Hs2 & Hb2). split; [|split; [|split]].
  - destruct Hf1 as (?&?&?&?&?&?), Hf2 as (?&?&?&?&?&?). repeat split; congruence.
  - by etrans.
  - destruct Hs2 as [->|]; [done|by right].
  - intros Hb. specialize (Hb1 Hb). subst d2. by apply Hb2.
Qed.

Lemma serve_evolves (ObjectId : string -> option N) (req : request) (db : database)
    (i : nat) (d : license_doc) :
  unique_ids db ->
  license db !! i = Some d ->
  exists d', license (serve ObjectId req db) !! i = Some d' /\ evolves d d'.
Proof.
  intros Hids Hd. destruct req as [data rnd|payload]; cbn.
  - exists d. split; [|apply evolves_refl].
    rewrite create_license_cases. cbv zeta.
    destruct (ObjectId _) as [oid|]; [|done].
    destruct (lookup_product oid db); [|done].
    destruct (_ && _)%bool; [|done]. cbn. by apply lookup_app_l_Some.
  - destruct (lookup_lt_is_Some_2 (license (snd (activate_license payload db))) i) as [d' Hd'].
    { rewrite activate_license_length. by eapply lookup_lt_Some. }
    exists d'. split; [done|].
    destruct (activate_license_written _ _ _ _ _ Hids Hd Hd') as [->|(_ & Hst & ->)];
      [apply evolves_refl|].
    split; [apply same_frame_set|]. split; [by apply prefix_app_r|]. split; [by right|].
    intros Hb%status_in_blocked. congruence.
Qed.

Lemma serve_unique_ids (ObjectId : string -> option N) (req : request) (db : database) :
  unique_ids db -> unique_ids (serve ObjectId req db).
Proof.
  destruct req; cbn; [apply create_license_unique_ids|apply activate_license_unique_ids].
Qed.

Lemma serve_all_unique_ids (ObjectId : string -> option N) (reqs : list request)
    (db : database) :
  unique_ids db -> unique_ids (serve_all ObjectId reqs db).
Proof.
  revert db. induction reqs as [|req reqs IH]; intros db Hids; [done|].
  cbn. by apply IH, serve_unique_ids.
Qed.

Lemma serve_all_evolves (ObjectId : string -> option N) (reqs : list request) (db : database)
    (i : nat) (d : license_doc) :
  unique_ids db ->
  license db !! i = Some d ->
  exists d', license (serve_all ObjectId reqs db) !! i = Some d' /\ evolves d d'.
Proof.
  revert db d. induction reqs as [|req reqs IH]; intros db d Hids Hd; cbn.
  - exists d. split; [done|apply evolves_refl].
  - destruct (serve_evolves ObjectId req db i d Hids Hd) as (d1 & Hd1 & He1).
    destruct (IH _ d1 (serve_unique_ids ObjectId req db Hids) Hd1) as (d2 & Hd2 & He2).
    exists d2. split; [done|]. by eapply evolves_trans.
Qed.

(** X6. Whatever issuances and activations are served, in whatever order, a
    stored license stays at its place with the same [_id], [key],
    [product_id], [assigned_to], [max_activations] and [expires_at], and
    the machines it had admitted stay admitted, in the same order, at the
    head of its list. *)
Theorem served_license_persists (ObjectId : string -> option N) (reqs : list request)
    (db : database) (i : nat) (d : license_doc) :
  unique_ids db ->
  license db !! i = Some d ->
  exists d',
    license (serve_all ObjectId reqs db) !! i = Some d' /\
    same_frame d d' /\
    doc_activations d `prefix_of` doc_activations d'.
Proof.
  intros Hids Hd.
  destruct (serve_all_evolves ObjectId reqs db i d Hids Hd) as (d' & Hd' & Hf & Hp & _).
  by exists d'.
Qed.

(** X7. The handlers move a status to [active] and nowhere else, and a
    license stored as suspended or expired is the same document after any
    issuances and activations. *)
Theorem served_status_moves_to_active (ObjectId : string -> option N) (reqs : list request)
    (db : database) (i : nat) (d : license_doc) :
  unique_ids db ->
  license db !! i = Some d ->
  exists d',
    license (serve_all ObjectId reqs db) !! i = Some d' /\
    (lic_status d' = lic_status d \/ lic_status d' = Some "active") /\
    (lic_status d = Some "suspended" \/ lic_status d = Some "expired" -> d' = d).
Proof.
  intros Hids Hd.
  destruct (serve_all_evolves ObjectId reqs db i d Hids Hd) as (d' & Hd' & _ & _ & Hs & Hb).
  by exists d'.
Qed.

(** ** Seats *)

(** X8. A stored license without [status], [activations] and
    [max_activations] is read as open, empty and with one seat: the first
    machine is admitted and a second, different one is refused. *)
Theorem activate_absent_fields (key m1 m2 : string) (db : database) (lic : license_doc) :
  unique_ids db ->
  lookup_license key db = Some lic ->
  lic_status lic = None -> lic_activations lic = None -> lic_max_activations lic = None ->
  m2 <> m1 ->
  exists db1,
    activate_license (ActivationRequest.mk key m1) db = (Return (resp_activated [m1]), db1) /\
    activate_license (ActivationRequest.mk key m2) db1 =
      (Raise (HTTPException 403 (Detail "Activation limit reached")), db1).
Proof.
  intros Hids Hlic Hst Hacts Hmax Hne.
  exists (activation_written lic m1 db). split.
  - rewrite activate_license_cases. cbv zeta. cbn [ActivationRequest.key ActivationRequest.machine_id].
    rewrite Hlic. unfold doc_activations, doc_max_activations. by rewrite Hst, Hacts, Hmax.
  - rewrite activate_license_cases. cbv zeta. cbn [ActivationRequest.key ActivationRequest.machine_id].
    rewrite (lookup_activation_written _ _ _ _ Hids Hlic).
    unfold doc_activations, doc_max_activations. cbn -[str_in]. rewrite Hacts, Hmax.
    cbn -[str_in].
    assert (Hnotin : str_in m2 [m1] = false).
    { apply str_in_not_elem_of. by intros ->%list_elem_of_singleton. }
    by rewrite Hnotin.
Qed.

Lemma activation_written_unique_ids (lic : license_doc) (m : string) (db : database) :
  unique_ids db -> unique_ids (activation_written lic m db).
Proof. unfold unique_ids. cbn. by rewrite update_first_ids. Qed.

Lemma same_frame_trans (d1 d2 d3 : license_doc) :
  same_frame d1 d2 -> same_frame d2 d3 -> same_frame d1 d3.
Proof. intros (?&?&?&?&?&?) (?&?&?&?&?&?). repeat split; congruence. Qed.

(** Machines that present one key in turn fill the free seats in order. *)
Lemma activate_each_fills (key : string) (ms : list string) :
  forall (db : database) (lic : license_doc),
    unique_ids db ->
    lookup_license key db = Some lic ->
    status_in (lic_status lic) ["suspended"; "expired"] = false ->
    NoDup (doc_activations lic ++ ms) ->
    exists lic',
      lookup_license key (activate_each key ms db) = Some lic' /\
      same_frame lic lic' /\
      doc_activations lic' =
        (doc_activations lic ++
         take (Z.to_nat (doc_max_activations lic - Z.of_nat (List.length (doc_activations lic))))
              ms)%list.
Proof.
  induction ms as [|m ms IH]; intros db lic Hids Hlic Hst Hnd.
  - exists lic. split; [done|]. split; [apply same_frame_refl|].
    by rewrite take_nil, app_nil_r.
  - cbn [activate_each foldl]. fold (activate_each key ms).
    assert (Hm : m ∉ doc_activations lic).
    { apply NoDup_app in Hnd as (_ & Hdis & _). intros Hin. apply (Hdis _ Hin), list_elem_of_here. }
    rewrite activate_license_cases. cbv zeta.
    cbn [ActivationRequest.key ActivationRequest.machine_id].
    rewrite Hlic, Hst. apply str_in_not_elem_of in Hm as Hm'. rewrite Hm'.
    destruct (Z.geb_spec (Z.of_nat (List.length (doc_activations lic)))
                (doc_max_activations lic)) as [Hfull|Hroom]; cbn [snd].
    + destruct (IH db lic Hids Hlic Hst) as (lic' & Hl' & Hf' & Ha').
      { apply NoDup_app in Hnd as (Ha & Hdis & [_ Hms]%NoDup_cons).
        apply NoDup_app. split; [done|]. split; [|done].
        intros x Hx Hin. apply (Hdis x Hx). by apply list_elem_of_further. }
      exists lic'. split; [done|]. split; [done|]. rewrite Ha'.
      replace (Z.to_nat _) with 0%nat by lia. by rewrite !take_0.
    + pose proof (lookup_activation_written key m lic db Hids Hlic) as Hlic1.
      destruct (IH _ _ (activation_written_unique_ids lic m db Hids) Hlic1 eq_refl)
        as (lic' & Hl' & Hf' & Ha').
      { unfold doc_activations at 1. cbn. by rewrite <- app_assoc. }
      exists lic'. split; [done|]. split.
      { eapply same_frame_trans; [apply same_frame_set|done]. }
      rewrite Ha'.
      change (doc_activations (set_activations_status (doc_activations lic ++ [m]) "active" lic))
        with (doc_activations lic ++ [m])%list.
      change (doc_max_activations
                (set_activations_status (doc_activations lic ++ [m]) "active" lic))
        with (doc_max_activations lic).
      rewrite length_app. cbn [List.length].
      replace (Z.to_nat (doc_max_activations lic -
                         Z.of_nat (List.length (doc_activations lic))))
        with (S (Z.to_nat (doc_max_activations lic -
                           Z.of_nat (List.length (doc_activations lic) + 1)))) by lia.
      cbn [take]. by rewrite <- app_assoc.
Qed.

(** X9. When distinct machines, none of them admitted yet, present the key
    of a license that is neither suspended nor expired one after the other,
    the license admits them in order until its ceiling is reached and no
    further: its list becomes the old one followed by the first
    [max_activations - len(activations)] of them. *)
Theorem activate_each_capacity (key : string) (ms : list string) (db : database)
    (lic : license_doc) :
  unique_ids db ->
  lookup_license key db = Some lic ->
  lic_status lic <> Some "suspended" ->
  lic_status lic <> Some "expired" ->
  NoDup (doc_activations lic ++ ms) ->
  exists lic',
    lookup_license key (activate_each key ms db) = Some lic' /\
    same_frame lic lic' /\
    doc_activations lic' =
      (doc_activations lic ++
       take (Z.to_nat (doc_max_activations lic - Z.of_nat (List.length (doc_activations lic))))
            ms)%list.
Proof.
  intros Hids Hlic Hs He. apply activate_each_fills; [done..|].
  destruct (status_in _ _) eqn:E; [|done]. apply status_in_blocked in E as [|]; done.
Qed.

(** X10. Issue, then activate. After an issuance that returns a key under
    which no license was stored, distinct machines that present the key one
    after the other are admitted in order up to the [max_activations] of the
    request, and the license is found under the returned [_id]. *)
Theorem issue_then_activate_each (ObjectId : string -> option N) (data : LicenseCreate.t)
    (rnd : list byte) (ms : list string) (db db' : database) (r : issued) :
  unique_ids db ->
  lookup_license (generate_key rnd) db = None ->
  create_license ObjectId data rnd db = (Return r, db') ->
  NoDup ms ->
  exists lic',
    lookup_license (issued_key r) (activate_each (issued_key r) ms db') = Some lic' /\
    lic__id lic' = issued_id r /\
    doc_activations lic' = take (Z.to_nat (LicenseCreate.max_activations data)) ms.
Proof.
  intros Hids Hfresh Hret Hms.
  pose proof (create_license_unique_ids ObjectId data rnd db Hids) as Hids'.
  rewrite create_license_cases in Hret, Hids'. cbv zeta in Hret, Hids'.
  destruct (ObjectId _) as [oid|]; [|discriminate].
  destruct (lookup_product oid db); [|discriminate].
  destruct (_ && _)%bool; [|discriminate].
  injection Hret as <- <-. cbn [snd issued_key issued_id] in *.
  set (l := License.mk _ _ _ _ _ _ _) in *.
  assert (Hnew : lookup_license (generate_key rnd) (license_inserted l db) =
                 Some (doc_of_License (fresh_id (license db)) l)).
  { unfold lookup_license in *. cbn [license license_inserted].
    rewrite find_app_none by done. cbn. by rewrite String.eqb_refl. }
  destruct (activate_each_fills _ ms _ _ Hids' Hnew eq_refl) as (lic' & Hl' & Hf' & Ha').
  { by cbn. }
  exists lic'. split; [done|]. split; [apply Hf'|].
  rewrite Ha'. cbn. by rewrite Z.sub_0_r.
Qed.

(** ** Stores that only the handlers have written *)

Lemma handler_built_set (acts : list string) (d : license_doc) :
  handler_built d -> handler_built (set_activations_status acts "active" d).
Proof.
  intros (max & acts0 & st & Hmax & _ & _ & Hb & _).
  exists max, acts, "active". repeat split; try done; [lia..|by right].
Qed.

Lemma serve_handler_built (ObjectId : string -> option N) (req : request) (db : database) :
  unique_ids db ->
  Forall handler_built (license db) ->
  Forall handler_built (license (serve ObjectId req db)).
Proof.
  intros Hids Hall. destruct req as [data rnd|payload]; cbn.
  - rewrite create_license_cases. cbv zeta.
    destruct (ObjectId _) as [oid|]; [|done].
    destruct (lookup_product oid db); [|done].
    destruct (_ && _)%bool eqn:Hb; [|done].
    apply andb_true_iff in Hb as [Hlo%Z.leb_le Hhi%Z.leb_le].
    cbn. apply Forall_app. split; [done|]. constructor; [|constructor].
    exists (LicenseCreate.max_activations data), [], "unused".
    repeat split; try done; by left.
  - apply Forall_lookup. intros i d' Hd'.
    destruct (lookup_lt_is_Some_2 (license db) i) as [d Hd].
    { rewrite <- (activate_license_length payload). by eapply lookup_lt_Some. }
    pose proof (proj1 (Forall_lookup _ _) Hall i d Hd) as Hbuilt.
    destruct (activate_license_written _ _ _ _ _ Hids Hd Hd') as [->|(_ & _ & ->)];
      [done|by apply handler_built_set].
Qed.

Lemma serve_store_ok (ObjectId : string -> option N) (req : request) (db : database) :
  store_ok db -> store_ok (serve ObjectId req db).
Proof.
  destruct req; cbn; [apply create_license_store_ok|apply activate_license_store_ok].
Qed.

Lemma serve_all_built (ObjectId : string -> option N) (reqs : list request) (db : database) :
  store_ok db ->
  Forall handler_built (license db) ->
  store_ok (serve_all ObjectId reqs db) /\
  Forall handler_built (license (serve_all ObjectId reqs db)).
Proof.
  revert db. induction reqs as [|req reqs IH]; intros db Hok Hall; [done|].
  cbn. apply IH; [by apply serve_store_ok|].
  apply serve_handler_built; [apply Hok|done].
Qed.

(** X11. In a store that started without licenses and that only issuances
    and activations have written, every license has its [status],
    [activations] and [max_activations], so that no default of [lic.get] is
    ever taken; its status is [unused] or [active], its ceiling is within 1
    to 100, it satisfies the invariants and holds at most 100 machines. *)
Theorem served_store_built (ObjectId : string -> option N) (reqs : list request)
    (db : database) (d : license_doc) :
  license db = [] ->
  d ∈ license (serve_all ObjectId reqs db) ->
  handler_built d /\ license_invariants d /\
  Z.of_nat (List.length (doc_activations d)) <= 100.
Proof.
  intros Hempty Hd.
  destruct (serve_all_built ObjectId reqs db) as [[_ Hinv] Hbuilt].
  { split; [unfold unique_ids|]; rewrite Hempty; constructor. }
  { rewrite Hempty. constructor. }
  pose proof (proj1 (Forall_forall _ _) Hinv d Hd) as Hi.
  pose proof (proj1 (Forall_forall _ _) Hbuilt d Hd) as Hb.
  split; [done|]. split; [done|].
  destruct Hb as (max & acts & st & Hmax & _ & _ & Hbound & _).
  destruct Hi as [Hcap _ _]. unfold doc_max_activations in Hcap. rewrite Hmax in Hcap.
  cbn in Hcap. lia.
Qed.

(** ** Listing *)

Section ListingProperties.
Variable ObjectId : string -> option N.
Variable str_ObjectId : N -> string.

Lemma list_licenses_cases (product_id : option string) (db : database) :
  list_licenses str_ObjectId product_id db =
    (Return (view_of_doc str_ObjectId <$>
               List.filter
                 (filter_matches
                    match product_id with
                    | Some (String c pid) => MatchProductId (String c pid)
                    | _ => MatchAll
                    end)
                 (license db)),
     db).
Proof. by destruct product_id as [[|c pid]|]. Qed.

Lemma filter_match_all (coll : list license_doc) :
  List.filter (filter_matches MatchAll) coll = coll.
Proof. induction coll as [|d coll IH]; cbn; by rewrite ?IH. Qed.

(** X12. [list_licenses] never raises and never writes. Without a
    [product_id], and with the empty string as [product_id], it lists every
    stored license in stored order; with another [product_id] a license is
    listed exactly when its stored [product_id] is that string. *)
Theorem list_licenses_filter (product_id : option string) (db : database) :
  snd (list_licenses str_ObjectId product_id db) = db /\
  (product_id = None \/ product_id = Some "" ->
     fst (list_licenses str_ObjectId product_id db) =
       Return (view_of_doc str_ObjectId <$> license db)) /\
  (forall pid, product_id = Some pid -> pid <> "" ->
     exists docs,
       fst (list_licenses str_ObjectId product_id db) =
         Return (view_of_doc str_ObjectId <$> docs) /\
       docs `sublist_of` license db /\
       forall d, d ∈ docs <-> d ∈ license db /\ lic_product_id d = pid).
Proof.
  rewrite list_licenses_cases. cbn [fst snd]. split; [done|]. split.
  - intros [->| ->]; by rewrite filter_match_all.
  - intros pid -> Hne. destruct pid as [|c pid]; [done|].
    eexists. split; [reflexivity|]. split.
    + generalize (license db). intros coll.
      induction coll as [|a coll IH]; cbn; [done|].
      destruct (String.eqb _ _); [by apply sublist_skip|by apply sublist_cons].
    + intros d. rewrite list_elem_of_In, filter_In, <- list_elem_of_In. cbn.
      by rewrite String.eqb_eq.
Qed.

(** X13. Issue, then list. After an issuance that returns, listing by the
    [product_id] of the request gives what it gave before followed by the
    new license: the returned key, the string of the returned [_id], status
    [unused] and no activations nor expiry. *)
Theorem issue_then_list (data : LicenseCreate.t) (rnd : list byte) (db db' : database)
    (r : issued) (before : list license_view) :
  create_license ObjectId data rnd db = (Return r, db') ->
  fst (list_licenses str_ObjectId (Some (LicenseCreate.product_id data)) db) = Return before ->
  fst (list_licenses str_ObjectId (Some (LicenseCreate.product_id data)) db') =
    Return (before ++
            [{| view_id := str_ObjectId (issued_id r);
                view_product_id := LicenseCreate.product_id data;
                view_key := issued_key r;
                view_assigned_to := LicenseCreate.assigned_to data;
                view_status := Some "unused";
                view_max_activations := Some (LicenseCreate.max_activations data);
                view_activations := Some [];
                view_expires_at := None |}])%list.
Proof.
  rewrite create_license_cases. cbv zeta.
  destruct (ObjectId _) as [oid|]; [|discriminate].
  destruct (lookup_product oid db); [|discriminate].
  destruct (_ && _)%bool; [|discriminate].
  intros [= <- <-]. rewrite !list_licenses_cases. cbn [fst]. intros [= <-].
  cbn [license license_inserted issued_id issued_key].
  rewrite List.filter_app, fmap_app. f_equal. f_equal.
  destruct (LicenseCreate.product_id data) as [|c pid] eqn:Hpid; cbn.
  - done.
  - by rewrite Ascii.eqb_refl, String.eqb_refl.
Qed.
End ListingProperties.

(** ** Activations composed *)

(** X14. The answer "Activated" is given only for a license that is neither
    suspended nor expired and a machine that it had not admitted, and the
    list it returns, the old one with the machine at its end, is never
    longer than the ceiling, whatever the store holds. *)
Theorem activated_within_ceiling (payload : ActivationRequest.t) (db db' : database)
    (acts : list string) :
  activate_license payload db = (Return (resp_activated acts), db') ->
  exists lic,
    lookup_license (ActivationRequest.key payload) db = Some lic /\
    acts = (doc_activations lic ++ [ActivationRequest.machine_id payload])%list /\
    (ActivationRequest.machine_id payload ∉ doc_activations lic) /\
    Z.of_nat (List.length acts) <= doc_max_activations lic /\
    lic_status lic <> Some "suspended" /\ lic_status lic <> Some "expired".
Proof.
  rewrite activate_license_cases. cbv zeta.
  destruct (lookup_license _ db) as [lic|]; [|discriminate].
  destruct (status_in _ _) eqn:Hst; [discriminate|].
  destruct (str_in _ _) eqn:Hin; [discriminate|].
  destruct (Z.geb_spec (Z.of_nat (List.length (doc_activations lic)))
              (doc_max_activations lic)); [discriminate|].
  intros [= <- <-]. exists lic. split; [done|]. split; [done|].
  split; [by apply str_in_not_elem_of|]. split.
  - rewrite length_app. cbn. lia.
  - split; intros Hs; rewrite Hs in Hst; discriminate.
Qed.

Lemma activate_license_license (payload : ActivationRequest.t) (db : database) :
  license (snd (activate_license payload db)) =
    match lookup_license (ActivationRequest.key payload) db with
    | Some lic =>
        if admits payload lic
        then update_first (lic__id lic)
               (set_activations_status
                  (doc_activations lic ++ [ActivationRequest.machine_id payload])%list "active")
               (license db)
        else license db
    | None => license db
    end.
Proof.
  rewrite activate_license_cases. cbv zeta. unfold admits.
  destruct (lookup_license _ db) as [lic|]; [|done].
  destruct (status_in _ _); [done|]. destruct (str_in _ _); [done|].
  by destruct (_ >=? _).
Qed.

Lemma activate_license_answer (payload : ActivationRequest.t) (db1 db2 : database) :
  lookup_license (ActivationRequest.key payload) db1 =
    lookup_license (ActivationRequest.key payload) db2 ->
  fst (activate_license payload db1) = fst (activate_license payload db2).
Proof.
  intros Heq. rewrite !activate_license_cases. cbv zeta. rewrite Heq.
  destruct (lookup_license _ db2) as [lic|]; [|done].
  destruct (status_in _ _); [done|]. destruct (str_in _ _); [done|].
  by destruct (_ >=? _).
Qed.

Lemma find_middle_skip {A} (p : A -> bool) (l1 l2 : list A) (x y : A) :
  p x = false -> p y = false ->
  List.find p (l1 ++ x :: l2)%list = List.find p (l1 ++ y :: l2)%list.
Proof.
  intros Hx Hy. induction l1 as [|a l1 IH]; cbn; [by rewrite Hx, Hy|].
  by rewrite IH.
Qed.

(** An activation leaves the license that another key resolves to in place
    and as it was. *)
Lemma activate_other_key_lookup (payload : ActivationRequest.t) (key : string)
    (db : database) :
  unique_ids db ->
  key <> ActivationRequest.key payload ->
  lookup_license key (snd (activate_license payload db)) = lookup_license key db.
Proof.
  intros Hids Hne. unfold lookup_license at 1 2. rewrite activate_license_license.
  destruct (lookup_license _ db) as [lic|] eqn:Hlic; [|done].
  destruct (admits payload lic); [|done].
  destruct (lookup_license_elem _ _ _ Hlic) as [_ Hkey].
  unfold lookup_license in Hlic. apply find_split in Hlic as (l1 & l2 & Hsplit & _ & _).
  unfold unique_ids in Hids. rewrite Hsplit in Hids |- *.
  rewrite update_first_split by done.
  apply find_middle_skip; cbn; apply String.eqb_neq; congruence.
Qed.

Lemma update_first_comm (id1 id2 : N) (f1 f2 : license_doc -> license_doc)
    (coll : list license_doc) :
  id1 <> id2 ->
  (forall d, lic__id (f1 d) = lic__id d) -> (forall d, lic__id (f2 d) = lic__id d) ->
  update_first id1 f1 (update_first id2 f2 coll) =
  update_first id2 f2 (update_first id1 f1 coll).
Proof.
  intros Hne H1 H2. induction coll as [|a coll IH]; cbn; [done|].
  destruct (N.eqb_spec (lic__id a) id1) as [E1|E1];
    destruct (N.eqb_spec (lic__id a) id2) as [E2|E2]; cbn.
  - congruence.
  - rewrite H1. destruct (N.eqb_spec (lic__id a) id1); [|done].
    destruct (N.eqb_spec (lic__id a) id2); done.
  - rewrite H2. destruct (N.eqb_spec (lic__id a) id2); [|done].
    destruct (N.eqb_spec (lic__id a) id1); done.
  - destruct (N.eqb_spec (lic__id a) id1); [done|].
    destruct (N.eqb_spec (lic__id a) id2); [done|]. by rewrite IH.
Qed.

Lemma unique_ids_inj (db : database) (d1 d2 : license_doc) :
  unique_ids db -> d1 ∈ license db -> d2 ∈ license db ->
  lic__id d1 = lic__id d2 -> d1 = d2.
Proof.
  unfold unique_ids. generalize (license db). intros coll.
  induction coll as [|a coll IH]; cbn; [by intros _ ?%elem_of_nil|].
  intros [Ha Hnd]%NoDup_cons [->|H1]%elem_of_cons [->|H2]%elem_of_cons Heq; [done| | |by apply IH].
  - exfalso. apply Ha. rewrite Heq. by apply list_elem_of_fmap_2.
  - exfalso. apply Ha. rewrite <- Heq. by apply list_elem_of_fmap_2.
Qed.

(** X15. Activations under two different keys do not interfere: each gets the
    answer it would get alone, and the licenses stored after both are the
    same in either order. *)
Theorem activate_distinct_keys_commute (p1 p2 : ActivationRequest.t) (db : database) :
  unique_ids db ->
  ActivationRequest.key p1 <> ActivationRequest.key p2 ->
  fst (activate_license p2 (snd (activate_license p1 db))) = fst (activate_license p2 db) /\
  fst (activate_license p1 (snd (activate_license p2 db))) = fst (activate_license p1 db) /\
  license (snd (activate_license p2 (snd (activate_license p1 db)))) =
  license (snd (activate_license p1 (snd (activate_license p2 db)))).
Proof.
  intros Hids Hne.
  pose proof (activate_other_key_lookup p1 (ActivationRequest.key p2) db Hids
                ltac:(congruence)) as H21.
  pose proof (activate_other_key_lookup p2 (ActivationRequest.key p1) db Hids Hne) as H12.
  split; [by apply activate_license_answer|]. split; [by apply activate_license_answer|].
  rewrite (activate_license_license p2 (snd _)), (activate_license_license p1 (snd _)).
  rewrite H21, H12, !activate_license_license.
  destruct (lookup_license (ActivationRequest.key p1) db) as [lic1|] eqn:Hl1;
    destruct (lookup_license (ActivationRequest.key p2) db) as [lic2|] eqn:Hl2; try done.
  destruct (admits p1 lic1), (admits p2 lic2); try done.
  apply update_first_comm; [|done..].
  destruct (lookup_license_elem _ _ _ Hl1) as [Hin1 Hk1].
  destruct (lookup_license_elem _ _ _ Hl2) as [Hin2 Hk2].
  intros Heq. pose proof (unique_ids_inj db lic2 lic1 Hids Hin2 Hin1 Heq). congruence.
Qed.

(** X16. Presenting the same key and machine a second time never changes
    the store, whatever the first answer was; the second answer is "Already
    activated on this machine" when the first call returned, and the same
    error when it raised. *)
Theorem activate_twice (payload : ActivationRequest.t) (db : database) :
  unique_ids db ->
  snd (activate_license payload (snd (activate_license payload db))) =
    snd (activate_license payload db) /\
  fst (activate_license payload (snd (activate_license payload db))) =
    match fst (activate_license payload db) with
    | Return _ => Return resp_already_activated
    | Raise e => Raise e
    end.
Proof.
  intros Hids. rewrite (activate_license_cases payload db). cbv zeta.
  destruct (lookup_license _ db) as [lic|] eqn:Hlic.
  2:{ cbn [fst snd]. rewrite activate_license_cases. cbv zeta. by rewrite Hlic. }
  destruct (status_in _ _) eqn:Hst.
  { cbn [fst snd]. rewrite activate_license_cases. cbv zeta. by rewrite Hlic, Hst. }
  destruct (str_in _ _) eqn:Hin.
  { cbn [fst snd]. rewrite activate_license_cases. cbv zeta. by rewrite Hlic, Hst, Hin. }
  destruct (_ >=? _) eqn:Hfull.
  { cbn [fst snd]. rewrite activate_license_cases. cbv zeta. by rewrite Hlic, Hst, Hin, Hfull. }
  cbn [fst snd]. rewrite activate_license_cases. cbv zeta.
  rewrite (lookup_activation_written _ _ _ _ Hids Hlic).
  change (lic_status (set_activations_status _ "active" lic)) with (Some "active").
  change (doc_activations (set_activations_status
            (doc_activations lic ++ [ActivationRequest.machine_id payload]) "active" lic))
    with (doc_activations lic ++ [ActivationRequest.machine_id payload])%list.
  assert (Hnow : str_in (ActivationRequest.machine_id payload)
                   (doc_activations lic ++ [ActivationRequest.machine_id payload])%list = true).
  { apply str_in_elem_of, elem_of_app. right. apply list_elem_of_here. }
  rewrite Hnow. by cbn.
Qed.

(** ** Further runs on concrete stores *)

Ltac nodup :=
  cbn; repeat (apply NoDup_cons_2;
               [rewrite ?elem_of_cons, ?elem_of_nil; intuition discriminate|]);
  apply NoDup_nil_2.

Lemma create_license_outcomes_run :
  exists oid p,
    ObjectId_hex24 example_product_id = Some oid /\
    lookup_product oid (example_db []) = Some p /\ 1 <= 3 <= 100.
Proof.
  apply (proj1 (proj1 (create_license_outcomes ObjectId_hex24
                         (LicenseCreate.mk example_product_id None 3 None) rnd_zero
                         (example_db [])))).
  by do 2 eexists.
Defined.

Lemma issue_key_collision_run :
  exists r db' d,
    create_license ObjectId_hex24 (LicenseCreate.mk example_product_id None 1 None) rnd_zero
      (example_db [example_license 1 "AAAA-AAAA-AAAA-AAAA" "active" 1 ["m1"]]) =
      (Return r, db') /\
    license db' = [example_license 1 "AAAA-AAAA-AAAA-AAAA" "active" 1 ["m1"]; d] /\
    issued_key r = "AAAA-AAAA-AAAA-AAAA" /\ lic_key d = "AAAA-AAAA-AAAA-AAAA" /\
    lic__id d <> 1%N /\
    lookup_license (issued_key r) db' =
      Some (example_license 1 "AAAA-AAAA-AAAA-AAAA" "active" 1 ["m1"]).
Proof.
  apply (issue_key_collision ObjectId_hex24 (LicenseCreate.mk example_product_id None 1 None)
           rnd_zero (example_db [example_license 1 "AAAA-AAAA-AAAA-AAAA" "active" 1 ["m1"]])
           1%N example_product (example_license 1 "AAAA-AAAA-AAAA-AAAA" "active" 1 ["m1"]));
    [reflexivity|reflexivity|cbn; lia|reflexivity].
Defined.

Lemma shadowed_license_never_written_run :
  license (snd (activate_license (ActivationRequest.mk "K" "m1")
                  (example_db [example_license 1 "K" "unused" 1 [];
                               example_license 2 "K" "unused" 1 []]))) !! 1%nat =
    Some (example_license 2 "K" "unused" 1 []).
Proof.
  apply shadowed_license_never_written; [nodup|reflexivity|].
  intros H. vm_compute in H. discriminate.
Defined.

Lemma served_license_persists_run :
  exists d',
    license (serve_all ObjectId_hex24
               [ActivateRequest (ActivationRequest.mk "K" "m2");
                IssueRequest (LicenseCreate.mk example_product_id None 1 None) rnd_zero]
               (example_db [example_license 1 "K" "active" 2 ["m1"]])) !! 0%nat = Some d' /\
    same_frame (example_license 1 "K" "active" 2 ["m1"]) d' /\
    doc_activations (example_license 1 "K" "active" 2 ["m1"]) `prefix_of` doc_activations d'.
Proof.
  apply served_license_persists; [nodup|reflexivity].
Defined.

Lemma served_status_moves_to_active_run :
  exists d',
    license (serve_all ObjectId_hex24
               [ActivateRequest (ActivationRequest.mk "K" "m2");
                ActivateRequest (ActivationRequest.mk "K" "m1")]
               (example_db [example_license 1 "K" "suspended" 2 ["m1"]])) !! 0%nat = Some d' /\
    (lic_status d' = Some "suspended" \/ lic_status d' = Some "active") /\
    (Some "suspended" = Some "suspended" \/ Some "suspended" = Some "expired" ->
     d' = example_license 1 "K" "suspended" 2 ["m1"]).
Proof.
  apply (served_status_moves_to_active ObjectId_hex24 _
           (example_db [example_license 1 "K" "suspended" 2 ["m1"]]) 0%nat
           (example_license 1 "K" "suspended" 2 ["m1"])); [nodup|reflexivity].
Defined.

Lemma activate_absent_fields_run :
  exists db1,
    activate_license (ActivationRequest.mk "K" "m1") (example_db [example_bare_license 1 "K"]) =
      (Return (resp_activated ["m1"]), db1) /\
    activate_license (ActivationRequest.mk "K" "m2") db1 =
      (Raise (HTTPException 403 (Detail "Activation limit reached")), db1).
Proof.
  apply (activate_absent_fields "K" "m1" "m2" (example_db [example_bare_license 1 "K"])
           (example_bare_license 1 "K")); [nodup|reflexivity..|discriminate].
Defined.

Lemma activate_each_capacity_run :
  exists lic',
    lookup_license "K"
      (activate_each "K" ["m1"; "m2"; "m3"] (example_db [example_license 1 "K" "unused" 2 []])) =
      Some lic' /\
    same_frame (example_license 1 "K" "unused" 2 []) lic' /\
    doc_activations lic' = ["m1"; "m2"].
Proof.
  apply (activate_each_capacity "K" ["m1"; "m2"; "m3"]
           (example_db [example_license 1 "K" "unused" 2 []])
           (example_license 1 "K" "unused" 2 []));
    [nodup|reflexivity|discriminate|discriminate|nodup].
Defined.

Lemma issue_then_activate_each_run :
  exists lic',
    lookup_license "AAAA-AAAA-AAAA-AAAA"
      (activate_each "AAAA-AAAA-AAAA-AAAA" ["m1"; "m2"; "m3"]
         (example_store [example_license 1 "AAAA-AAAA-AAAA-AAAA" "unused" 2 []]
            [InsertLicense (example_license 1 "AAAA-AAAA-AAAA-AAAA" "unused" 2 [])])) =
      Some lic' /\
    lic__id lic' = 1%N /\
    doc_activations lic' = ["m1"; "m2"].
Proof.
  apply (issue_then_activate_each ObjectId_hex24
           (LicenseCreate.mk example_product_id None 2 None) rnd_zero ["m1"; "m2"; "m3"]
           (example_db [])
           (example_store [example_license 1 "AAAA-AAAA-AAAA-AAAA" "unused" 2 []]
              [InsertLicense (example_license 1 "AAAA-AAAA-AAAA-AAAA" "unused" 2 [])])
           {| issued_id := 1; issued_key := "AAAA-AAAA-AAAA-AAAA" |});
    [nodup|reflexivity|reflexivity|nodup].
Defined.

Lemma served_store_built_run :
  handler_built (example_license 1 "AAAA-AAAA-AAAA-AAAA" "active" 2 ["m1"]) /\
  license_invariants (example_license 1 "AAAA-AAAA-AAAA-AAAA" "active" 2 ["m1"]) /\
  Z.of_nat (List.length (doc_activations
                           (example_license 1 "AAAA-AAAA-AAAA-AAAA" "active" 2 ["m1"]))) <= 100.
Proof.
  apply (served_store_built ObjectId_hex24
           [IssueRequest (LicenseCreate.mk example_product_id None 2 None) rnd_zero;
            ActivateRequest (ActivationRequest.mk "AAAA-AAAA-AAAA-AAAA" "m1")]
           (example_db [])); [reflexivity|].
  assert (Hrun : license (serve_all ObjectId_hex24
                    [IssueRequest (LicenseCreate.mk example_product_id None 2 None) rnd_zero;
                     ActivateRequest (ActivationRequest.mk "AAAA-AAAA-AAAA-AAAA" "m1")]
                    (example_db [])) =
                 [example_license 1 "AAAA-AAAA-AAAA-AAAA" "active" 2 ["m1"]])
    by reflexivity.
  rewrite Hrun. apply list_elem_of_here.
Defined.

Lemma list_licenses_filter_run :
  fst (list_licenses str_ObjectId_hex24 (Some "")
         (example_db [example_license 1 "K" "unused" 1 []])) =
    Return [view_of_doc str_ObjectId_hex24 (example_license 1 "K" "unused" 1 [])].
Proof.
  apply (proj1 (proj2 (list_licenses_filter str_ObjectId_hex24 (Some "")
                         (example_db [example_license 1 "K" "unused" 1 []])))).
  by right.
Defined.

Lemma issue_then_list_run :
  fst (list_licenses str_ObjectId_hex24 (Some example_product_id)
         (example_store [example_license 1 "AAAA-AAAA-AAAA-AAAA" "unused" 2 []]
            [InsertLicense (example_license 1 "AAAA-AAAA-AAAA-AAAA" "unused" 2 [])])) =
    Return [{| view_id := "000000000000000000000001";
               view_product_id := example_product_id;
               view_key := "AAAA-AAAA-AAAA-AAAA";
               view_assigned_to := None;
               view_status := Some "unused";
               view_max_activations := Some 2;
               view_activations := Some [];
               view_expires_at := None |}].
Proof.
  apply (issue_then_list ObjectId_hex24 str_ObjectId_hex24
           (LicenseCreate.mk example_product_id None 2 None) rnd_zero (example_db [])
           (example_store [example_license 1 "AAAA-AAAA-AAAA-AAAA" "unused" 2 []]
              [InsertLicense (example_license 1 "AAAA-AAAA-AAAA-AAAA" "unused" 2 [])])
           {| issued_id := 1; issued_key := "AAAA-AAAA-AAAA-AAAA" |} []);
    reflexivity.
Defined.

Lemma activated_within_ceiling_run :
  exists lic,
    lookup_license "K" (example_db [example_license 1 "K" "unused" 1 []]) = Some lic /\
    ["m1"] = (doc_activations lic ++ ["m1"])%list /\
    ("m1" ∉ doc_activations lic) /\
    Z.of_nat (List.length ["m1"]) <= doc_max_activations lic /\
    lic_status lic <> Some "suspended" /\ lic_status lic <> Some "expired".
Proof.
  apply (activated_within_ceiling (ActivationRequest.mk "K" "m1")
           (example_db [example_license 1 "K" "unused" 1 []])
           (example_store [example_license 1 "K" "active" 1 ["m1"]]
              [SetActivationsStatus 1 ["m1"] "active"])
           ["m1"]).
  reflexivity.
Defined.

Lemma activate_distinct_keys_commute_run :
  license (snd (activate_license (ActivationRequest.mk "K2" "m2")
                  (snd (activate_license (ActivationRequest.mk "K1" "m1")
                          (example_db [example_license 1 "K1" "unused" 1 [];
                                       example_license 2 "K2" "unused" 1 []]))))) =
  license (snd (activate_license (ActivationRequest.mk "K1" "m1")
                  (snd (activate_license (ActivationRequest.mk "K2" "m2")
                          (example_db [example_license 1 "K1" "unused" 1 [];
                                       example_license 2 "K2" "unused" 1 []]))))).
Proof.
  apply (activate_distinct_keys_commute (ActivationRequest.mk "K1" "m1")
           (ActivationRequest.mk "K2" "m2")); [nodup|discriminate].
Defined.

Lemma activate_twice_run :
  snd (activate_license (ActivationRequest.mk "K" "m1")
         (snd (activate_license (ActivationRequest.mk "K" "m1")
                 (example_db [example_license 1 "K" "unused" 1 []])))) =
  snd (activate_license (ActivationRequest.mk "K" "m1")
         (example_db [example_license 1 "K" "unused" 1 []])).
Proof.
  apply (activate_twice (ActivationRequest.mk "K" "m1")
           (example_db [example_license 1 "K" "unused" 1 []])).
  nodup.
Defined.

(** X17. Activate, then list. With unique identifiers, after the answer
    "Activated" the listing of all licenses holds the license of the
    presented key with the returned list of machines and status [active]. *)
Theorem activate_then_list (str_ObjectId : N -> string) (payload : ActivationRequest.t)
    (db db' : database) (acts : list string) :
  unique_ids db ->
  activate_license payload db = (Return (resp_activated acts), db') ->
  exists views v,
    list_licenses str_ObjectId None db' = (Return views, db') /\
    v ∈ views /\
    view_key v = ActivationRequest.key payload /\
    view_activations v = Some acts /\
    view_status v = Some "active".
Proof.
  intros Hids. rewrite activate_license_cases. cbv zeta.
  destruct (lookup_license _ db) as [lic|] eqn:Hlic; [|discriminate].
  destruct (status_in _ _); [discriminate|].
  destruct (str_in _ _); [discriminate|].
  destruct (_ >=? _); [discriminate|].
  intros [= <- <-].
  pose proof (lookup_activation_written _ (ActivationRequest.machine_id payload) _ _ Hids Hlic)
    as Hnew.
  destruct (lookup_license_elem _ _ _ Hnew) as [Hin Hkey].
  do 2 eexists. rewrite list_licenses_cases, filter_match_all.
  split; [reflexivity|]. split; [by apply list_elem_of_fmap_2|]. by repeat split.
Qed.

Lemma activate_then_list_run :
  exists views v,
    list_licenses str_ObjectId_hex24 None
      (example_store [example_license 1 "K" "active" 1 ["m1"]]
         [SetActivationsStatus 1 ["m1"] "active"]) =
      (Return views,
       example_store [example_license 1 "K" "active" 1 ["m1"]]
         [SetActivationsStatus 1 ["m1"] "active"]) /\
    v ∈ views /\ view_key v = "K" /\
    view_activations v = Some ["m1"] /\ view_status v = Some "active".
Proof.
  apply (activate_then_list str_ObjectId_hex24 (ActivationRequest.mk "K" "m1")
           (example_db [example_license 1 "K" "unused" 1 []])
           (example_store [example_license 1 "K" "active" 1 ["m1"]]
              [SetActivationsStatus 1 ["m1"] "active"])
           ["m1"]); [nodup|reflexivity].
Defined.

(** ** The invariants, license by license *)

(** With unique identifiers, the license an activation writes is the one its
    key resolves to, and it passed the three tests of the handler. *)
Lemma activate_license_written_admits (payload : ActivationRequest.t) (db : database)
    (i : nat) (d d' : license_doc) :
  unique_ids db ->
  license db !! i = Some d ->
  license (snd (activate_license payload db)) !! i = Some d' ->
  d' = d \/
  (lookup_license (ActivationRequest.key payload) db = Some d /\
   admits payload d = true /\
   d' = set_activations_status
          (doc_activations d ++ [ActivationRequest.machine_id payload])%list "active" d).
Proof.
  intros Hids Hd. rewrite activate_license_license.
  destruct (lookup_license _ db) as [lic|] eqn:Hlic; [|left; congruence].
  destruct (admits payload lic) eqn:Hadm; [|left; congruence].
  pose proof Hlic as Hfound.
  unfold lookup_license in Hlic. apply find_split in Hlic as (l1 & l2 & Hsplit & _ & _).
  unfold unique_ids in Hids. rewrite Hsplit in Hids, Hd |- *.
  rewrite update_first_split by done. intros Hd'.
  destruct (decide (i = List.length l1)) as [->|Hne].
  - rewrite list_lookup_middle in Hd, Hd' by done. injection Hd as <-. injection Hd' as <-.
    by right.
  - left. destruct (decide (i < List.length l1)%nat).
    + rewrite lookup_app_l in Hd, Hd' by done. congruence.
    + rewrite lookup_app_r in Hd, Hd' by lia.
      destruct (i - List.length l1)%nat as [|k] eqn:Hk; [lia|]. cbn in Hd, Hd'. congruence.
Qed.

Lemma admits_true (payload : ActivationRequest.t) (lic : license_doc) :
  admits payload lic = true <->
  status_in (lic_status lic) ["suspended"; "expired"] = false /\
  (ActivationRequest.machine_id payload ∉ doc_activations lic) /\
  Z.of_nat (List.length (doc_activations lic)) < doc_max_activations lic.
Proof.
  unfold admits. rewrite !andb_true_iff, !negb_true_iff, str_in_not_elem_of.
  destruct (Z.geb_spec (Z.of_nat (List.length (doc_activations lic)))
              (doc_max_activations lic)); split; intros [[? ?] ?] || intros (? & ? & ?);
    repeat split; try done; lia.
Qed.

(** C1. In a store with unique identifiers, whatever else it holds, a
    license that satisfies the three invariants satisfies them after one
    call of [activate_license], whatever the call answers: the license is
    left as it was, or the machine, which it had not admitted, is appended
    and its status set to [active], the two together. One call of
    [create_license] leaves every stored license as it was and, when it
    returns, which it does for every valid request, appends one license with
    status [unused] and no activations that satisfies the invariants.
    Both calls leave the identifiers unique. *)
Theorem license_invariants_preserved (ObjectId : string -> option N) (db : database) :
  unique_ids db ->
  (forall payload i d,
     license db !! i = Some d -> license_invariants d ->
     exists d',
       license (snd (activate_license payload db)) !! i = Some d' /\
       license_invariants d' /\
       (d' = d \/
        ((ActivationRequest.machine_id payload ∉ doc_activations d) /\
         d' = set_activations_status
                (doc_activations d ++ [ActivationRequest.machine_id payload])%list
                "active" d))) /\
  (forall data rnd,
     (exists e, create_license ObjectId data rnd db = (Raise e, db)) \/
     (exists r db' d,
        create_license ObjectId data rnd db = (Return r, db') /\
        license db' = (license db ++ [d])%list /\
        lic_status d = Some "unused" /\ lic_activations d = Some [] /\
        license_invariants d)) /\
  (forall data rnd oid p,
     ObjectId (LicenseCreate.product_id data) = Some oid ->
     lookup_product oid db = Some p ->
     1 <= LicenseCreate.max_activations data <= 100 ->
     exists r db', create_license ObjectId data rnd db = (Return r, db')) /\
  (forall payload, unique_ids (snd (activate_license payload db))) /\
  (forall data rnd, unique_ids (snd (create_license ObjectId data rnd db))).
Proof.
  intros Hids. split; [|split; [|split; [|split]]].
  - intros payload i d Hd Hinv.
    destruct (lookup_lt_is_Some_2 (license (snd (activate_license payload db))) i) as [d' Hd'].
    { rewrite activate_license_length. by eapply lookup_lt_Some. }
    exists d'. split; [done|].
    destruct (activate_license_written_admits _ _ _ _ _ Hids Hd Hd')
      as [->|(_ & (_ & Hnew & Hroom)%admits_true & ->)].
    + split; [done|by left].
    + split; [by apply invariants_activated|by right].
  - intros data rnd. rewrite create_license_cases. cbv zeta.
    destruct (ObjectId _) as [oid|]; [|left; by eexists].
    destruct (lookup_product oid db); [|left; by eexists].
    destruct (_ && _)%bool eqn:Hb; [|left; by eexists].
    apply andb_true_iff in Hb as [Hlo%Z.leb_le _].
    right. do 3 eexists. split; [reflexivity|]. cbn.
    split; [reflexivity|]. split; [done|]. split; [done|]. by apply invariants_issued.
  - intros data rnd oid p Hoid Hprod [Hlo Hhi]. rewrite create_license_cases. cbv zeta.
    rewrite Hoid, Hprod.
    destruct (Z.leb_spec 1 (LicenseCreate.max_activations data)); [|lia].
    destruct (Z.leb_spec (LicenseCreate.max_activations data) 100); [|lia].
    by do 2 eexists.
  - intros payload. by apply activate_license_unique_ids.
  - intros data rnd. by apply create_license_unique_ids.
Qed.

(** A run beside a license that breaks the invariants: the suspended license
    holds a machine, the unused one is activated and still satisfies them. *)
Lemma license_invariants_preserved_run :
  exists d',
    license (snd (activate_license (ActivationRequest.mk "K1" "m1")
                    (example_db [example_license 1 "K1" "unused" 2 [];
                                 example_license 2 "K2" "suspended" 5 ["m1"]]))) !! 0%nat =
      Some d' /\
    license_invariants d' /\
    (d' = example_license 1 "K1" "unused" 2 [] \/
     (("m1" ∉ doc_activations (example_license 1 "K1" "unused" 2 [])) /\
      d' = set_activations_status ["m1"] "active" (example_license 1 "K1" "unused" 2 []))).
Proof.
  apply (proj1 (license_invariants_preserved ObjectId_hex24
                  (example_db [example_license 1 "K1" "unused" 2 [];
                               example_license 2 "K2" "suspended" 5 ["m1"]])
                  ltac:(nodup))
           (ActivationRequest.mk "K1" "m1") 0%nat (example_license 1 "K1" "unused" 2 [])).
  - reflexivity.
  - apply example_license_invariants_unused. lia.
Defined.
